(** * Course aggregator (api/all-courses.js): a shallow embedding

    The file follows the source top-down: JavaScript strings and values,
    completions (normal return or thrown exception), the five source
    adapters, and the handler with its dedup loop and its response.  The
    theorems about them come last. *)

From Stdlib Require Import Ascii String.
From stdpp Require Import base option list strings gmap.

Local Open Scope string_scope.
Local Set Warnings "-register-all".

(** ** Strings

    A JavaScript string is a sequence of 16-bit code units.  The model works
    over the code units below 256 (Latin-1), which is what [string] holds;
    every string primitive the source calls is written out over them. *)
Module JsString.

Definition code (c : ascii) : nat := nat_of_ascii c.

Definition in_range (lo hi : nat) (c : ascii) : bool :=
  (lo <=? code c)%nat && (code c <=? hi)%nat.

(** [String.prototype.toLowerCase] on one code unit: A-Z, and the Latin-1
    capitals U+00C0..U+00DE without the multiplication sign U+00D7. *)
Definition lower_char (c : ascii) : ascii :=
  if in_range 65 90 c || (in_range 192 222 c && negb (code c =? 215)%nat)
  then ascii_of_nat (code c + 32) else c.

Fixpoint toLowerCase (s : string) : string :=
  match s with
  | EmptyString => EmptyString
  | String c s' => String (lower_char c) (toLowerCase s')
  end.

(** The [Canonicalize] step of a regular expression with the [i] flag and
    without the [u] flag: a code unit is compared through its upper-case
    form when that is again one code unit.  The upper-case forms of U+00B5
    and U+00FF lie outside Latin-1 and equal no Latin-1 code unit, so both
    are left alone. *)
Definition canonicalize (c : ascii) : ascii :=
  if in_range 97 122 c || (in_range 224 254 c && negb (code c =? 247)%nat)
  then ascii_of_nat (code c - 32) else c.

Definition ci_eq (p c : ascii) : bool :=
  Ascii.eqb (canonicalize p) (canonicalize c).

(** White space and line terminators, as [String.prototype.trim] sees
    them: TAB, LF, VT, FF, CR, SP and NBSP. *)
Definition is_space (c : ascii) : bool :=
  in_range 9 13 c || (code c =? 32)%nat || (code c =? 160)%nat.

Fixpoint trimStart (s : string) : string :=
  match s with
  | EmptyString => EmptyString
  | String c s' => if is_space c then trimStart s' else s
  end.

Fixpoint trimEnd (s : string) : string :=
  match s with
  | EmptyString => EmptyString
  | String c s' =>
      let t := trimEnd s' in
      if is_space c && String.eqb t EmptyString then EmptyString
      else String c t
  end.

Definition trim (s : string) : string := trimEnd (trimStart s).

Fixpoint startsWith (s q : string) : bool :=
  match q, s with
  | EmptyString, _ => true
  | String a q', String b s' => Ascii.eqb a b && startsWith s' q'
  | String _ _, EmptyString => false
  end.

(** [s.includes(q)] *)
Fixpoint includes (s q : string) : bool :=
  startsWith s q ||
  match s with
  | EmptyString => false
  | String _ s' => includes s' q
  end.

(** [xs.join(sep)] on strings *)
Fixpoint join (sep : string) (xs : list string) : string :=
  match xs with
  | [] => EmptyString
  | [x] => x
  | x :: xs' => x +:+ sep +:+ join sep xs'
  end.

(** A literal of a case-insensitive pattern matched at the head of [s]:
    the text after it. *)
Fixpoint match_literal (lit s : string) : option string :=
  match lit, s with
  | EmptyString, _ => Some s
  | String p lit', String c s' =>
      if ci_eq p c then match_literal lit' s' else None
  | String _ _, EmptyString => None
  end.

(** The lazy wildcard [[\s\S]*?] followed by a literal: the text up to
    the first place where the literal matches, and the text after it. *)
Fixpoint lazy_until (lit s : string) : option (string * string) :=
  match match_literal lit s with
  | Some rest => Some (EmptyString, rest)
  | None =>
      match s with
      | EmptyString => None
      | String c s' =>
          match lazy_until lit s' with
          | Some (skipped, rest) => Some (String c skipped, rest)
          | None => None
          end
      end
  end.

Fixpoint has_char (a : ascii) (s : string) : bool :=
  match s with
  | EmptyString => false
  | String c s' => Ascii.eqb a c || has_char a s'
  end.

End JsString.

(** ** Completions

    A JavaScript computation returns normally or throws; an [async]
    function's promise is fulfilled with the value or rejected with the
    exception. *)
Inductive exn : Type :=
| TypeError
| SyntaxError
| NetworkFailure.

Inductive completion (A : Type) : Type :=
| Normal (a : A)
| Throw (e : exn).
Arguments Normal {A} a.
Arguments Throw {A} e.

#[export] Instance completion_ret : MRet completion := λ A a, Normal a.
#[export] Instance completion_bind : MBind completion := λ A B f m,
  match m with
  | Normal a => f a
  | Throw e => Throw e
  end.

(** [try { body } catch (err) { handler }] *)
Definition try_catch {A} (body : completion A) (handler : exn → completion A)
  : completion A :=
  match body with
  | Normal a => Normal a
  | Throw e => handler e
  end.

(** ** Values

    The values the program handles: what [JSON.parse] gives, and
    [undefined] for a missing property.  A number is carried by its
    [Number.prototype.toString] rendering; the program observes numbers
    only through truthiness and through that rendering. *)
Inductive jsval : Type :=
| JUndefined
| JNull
| JBool (b : bool)
| JNum (repr : string)
| JStr (s : string)
| JArr (elems : list jsval)
| JObj (props : list (string * jsval)).

Definition truthy (v : jsval) : bool :=
  match v with
  | JUndefined | JNull => false
  | JBool b => b
  | JNum r => negb (String.eqb r "0") && negb (String.eqb r "NaN")
  | JStr s => negb (String.eqb s "")
  | JArr _ | JObj _ => true
  end.

(** [a || b] with [b] already evaluated *)
Definition js_or (a b : jsval) : jsval := if truthy a then a else b.

(** [a || b] with [b] evaluated only when [a] is falsy *)
Definition or_else (a b : completion jsval) : completion jsval :=
  x ← a; if truthy x then Normal x else b.

Fixpoint own_property (k : string) (ps : list (string * jsval)) : option jsval :=
  match ps with
  | [] => None
  | (k', v) :: ps' => if String.eqb k k' then Some v else own_property k ps'
  end.

Definition has_own (k : string) (ps : list (string * jsval)) : bool :=
  match own_property k ps with Some _ => true | None => false end.

(** [v.k] for a property name [k] that no built-in prototype defines (all
    the names the adapters read are such): [TypeError] on [undefined] and
    [null], the own property of an object, [undefined] otherwise. *)
Definition get (v : jsval) (k : string) : completion jsval :=
  match v with
  | JUndefined | JNull => Throw TypeError
  | JObj ps => Normal (default JUndefined (own_property k ps))
  | _ => Normal JUndefined
  end.

(** The abstract operation [ToString] (template literals, the elements of a
    joined array).  A parsed object has no callable own property, so an own
    ["toString"] makes the conversion throw; without one the object prints
    as ["[object Object]"].  An array prints as its elements joined by
    commas, [undefined] and [null] printing as the empty string. *)
Fixpoint to_string (v : jsval) : completion string :=
  match v with
  | JUndefined => Normal "undefined"
  | JNull => Normal "null"
  | JBool true => Normal "true"
  | JBool false => Normal "false"
  | JNum r => Normal r
  | JStr s => Normal s
  | JArr xs =>
      match
        (fix elements (l : list jsval) : completion (list string) :=
           match l with
           | [] => Normal []
           | x :: l' =>
               match (match x with
                      | JUndefined | JNull => Normal ""
                      | _ => to_string x
                      end) with
               | Throw e => Throw e
               | Normal s =>
                   match elements l' with
                   | Throw e => Throw e
                   | Normal ss => Normal (s :: ss)
                   end
               end
           end) xs
      with
      | Throw e => Throw e
      | Normal ss => Normal (JsString.join "," ss)
      end
  | JObj ps =>
      if has_own "toString" ps then Throw TypeError
      else Normal "[object Object]"
  end.

(** The method call [v.toString()] *)
Definition toString (v : jsval) : completion string :=
  match v with
  | JUndefined | JNull => Throw TypeError
  | _ => to_string v
  end.

(** [v.map(f)]: only an array has a callable [map]. *)
Definition array_map {B} (f : jsval → completion B) (v : jsval)
  : completion (list B) :=
  match v with
  | JArr xs => mapM f xs
  | _ => Throw TypeError
  end.

(** ** The record every adapter builds *)
Record course : Type := Course {
  title : jsval;
  description : jsval;
  image : jsval;
  url : jsval;
  platform : string;
  free : bool
}.

(** ** The outside world

    An adapter makes one [fetch]; the request it sends is not modelled, the
    outcome of the call is an input: the call rejects, or resolves to a
    response with its [ok] flag and with what [r.json()] and [r.text()]
    settle to. *)
Record http_response : Type := HttpResponse {
  ok : bool;
  json : completion jsval;
  text : completion string
}.

Inductive fetch_result : Type :=
| FetchRejects (e : exn)
| FetchResolves (r : http_response).

Definition fetch (w : fetch_result) : completion http_response :=
  match w with
  | FetchRejects e => Throw e
  | FetchResolves r => Normal r
  end.

(** ** Sources *)

(** [getCoursera]: the mapping of one element of [data.elements] *)
Definition coursera_item (c : jsval) : completion course :=
  t ← or_else (get c "name") (get c "title");
  d ← or_else (or_else (get c "description") (get c "subtitle")) (Normal (JStr ""));
  i ← or_else (get c "photoUrl") (Normal JNull);
  slug ← get c "slug";
  u ← (if truthy slug
       then s ← to_string slug; Normal (JStr ("https://www.coursera.org/learn/" +:+ s))
       else Normal JNull);
  Normal {| title := t; description := d; image := i; url := u;
            platform := "Coursera"; free := true |}.

Definition getCoursera_try (query : string) (w : fetch_result)
  : completion (list course) :=
  r ← fetch w;
  if negb (ok r) then Normal []
  else
    data ← json r;
    elements ← get data "elements";
    array_map coursera_item (js_or elements (JArr [])).

Definition getCoursera (query : string) (w : fetch_result)
  : completion (list course) :=
  try_catch (getCoursera_try query w) (λ err, Normal []).

(** [getClassCentral] *)
Definition classcentral_item (c : jsval) : completion course :=
  t ← get c "title";
  d ← or_else (get c "description") (Normal (JStr ""));
  i ← or_else (get c "image") (Normal JNull);
  u ← or_else (get c "url") (Normal JNull);
  Normal {| title := t; description := d; image := i; url := u;
            platform := "Class Central"; free := true |}.

Definition getClassCentral_try (w : fetch_result) : completion (list course) :=
  r ← fetch w;
  if negb (ok r) then Normal []
  else
    data ← json r;
    array_map classcentral_item (js_or data (JArr [])).

Definition getClassCentral (w : fetch_result) : completion (list course) :=
  try_catch (getClassCentral_try w) (λ err, Normal []).

(** [getFreeCodeCamp] *)
Definition fcc_image : string :=
  "https://design-style-guide.freecodecamp.org/downloads/fcc_secondary_small.svg".
Definition fcc_url : string := "https://www.freecodecamp.org/learn".

(** the entry returned on a response that is not [ok] *)
Definition fcc_not_ok_entry : course :=
  {| title := JStr "freeCodeCamp Learn";
     description := JStr "freeCodeCamp's self-paced curriculum (Responsive Web Design, JavaScript Algorithms, Front End Libraries, etc.)";
     image := JStr fcc_image; url := JStr fcc_url;
     platform := "freeCodeCamp"; free := true |}.

(** the entry returned from the [catch] block *)
Definition fcc_catch_entry : course :=
  {| title := JStr "freeCodeCamp: Learn";
     description := JStr "freeCodeCamp curriculum";
     image := JStr fcc_image; url := JStr fcc_url;
     platform := "freeCodeCamp"; free := true |}.

Definition getFreeCodeCamp_try (w : fetch_result) : completion (list course) :=
  r ← fetch w;
  if negb (ok r) then Normal [fcc_not_ok_entry]
  else
    data ← json r;
    t ← or_else (get data "title") (Normal (JStr "freeCodeCamp: Learn"));
    d ← or_else (get data "description") (Normal (JStr "freeCodeCamp curriculum"));
    Normal [ {| title := t; description := d;
                image := JStr fcc_image; url := JStr fcc_url;
                platform := "freeCodeCamp"; free := true |} ].

Definition getFreeCodeCamp (query : string) (w : fetch_result)
  : completion (list course) :=
  try_catch (getFreeCodeCamp_try w) (λ err, Normal [fcc_catch_entry]).

(** [stripTags]: [s.replace(/<[^>]*>/g, "")].  A tag runs from a ["<"] to
    the first [">"] after it; a ["<"] with no [">"] after it is not a tag
    and stays.  [in_tag] says that the scan is inside a tag. *)
Fixpoint strip (in_tag : bool) (s : string) : string :=
  match s with
  | EmptyString => EmptyString
  | String c s' =>
      if in_tag then
        if Ascii.eqb c ">" then strip false s' else strip true s'
      else if Ascii.eqb c "<" && JsString.has_char ">" s' then strip true s'
      else String c (strip false s')
  end.

Definition stripTags (s : string) : string := strip false s.

(** [itemRe.exec] on the text that starts at [lastIndex]: the three groups
    and the text after the match.  Every wildcard of the pattern is lazy and
    is followed by a literal, and whatever follows a later occurrence of a
    literal also follows its first occurrence, so the backtracking search
    comes to taking the first occurrence of each literal in turn. *)
Definition itemRe_exec (s : string) : option (string * string * string * string) :=
  '(_, s) ← JsString.lazy_until "<item>" s;
  '(_, s) ← JsString.lazy_until "<title>" s;
  '(m1, s) ← JsString.lazy_until "</title>" s;
  '(_, s) ← JsString.lazy_until "<link>" s;
  '(m2, s) ← JsString.lazy_until "</link>" s;
  '(_, s) ← JsString.lazy_until "<description>" s;
  '(m3, s) ← JsString.lazy_until "</description>" s;
  '(_, s) ← JsString.lazy_until "</item>" s;
  Some (m1, m2, m3, s).

(** [query] is falsy exactly when it is empty; [m[i] || ""] is [m[i]], a
    group that took part in the match being a string. *)
Definition gfg_skips (query title desc : string) : bool :=
  negb (String.eqb query "") &&
  (let q := JsString.toLowerCase query in
   negb (JsString.includes (JsString.toLowerCase title) q) &&
   negb (JsString.includes (JsString.toLowerCase desc) q)).

Definition gfg_item (title link desc : string) : course :=
  {| title := JStr title; description := JStr desc; image := JNull;
     url := JStr link; platform := "GeeksforGeeks"; free := true |}.

(** The [while] loop of [getGeeksForGeeks]: [rest] is the text from
    [lastIndex] on, [items] the array built so far.  Each match consumes
    text, and [fuel] bounds the number of iterations; [gfg_loop_fuel] shows
    that any fuel above the length of the text gives the same result. *)
Fixpoint gfg_loop (fuel : nat) (query rest : string) (items : list course)
  : list course :=
  match fuel with
  | O => items
  | S fuel' =>
      match itemRe_exec rest with
      | None => items
      | Some (m1, m2, m3, rest') =>
          let title := JsString.trim (stripTags m1) in
          let link := JsString.trim (stripTags m2) in
          let desc := JsString.trim (stripTags m3) in
          if gfg_skips query title desc then gfg_loop fuel' query rest' items
          else
            let items' := (items ++ [gfg_item title link desc])%list in
            if (20 <=? length items')%nat then items'
            else gfg_loop fuel' query rest' items'
      end
  end.

Definition getGeeksForGeeks_try (query : string) (w : fetch_result)
  : completion (list course) :=
  r ← fetch w;
  if negb (ok r) then Normal []
  else
    t ← text r;
    Normal (gfg_loop (S (String.length t)) query t []).

Definition getGeeksForGeeks (query : string) (w : fetch_result)
  : completion (list course) :=
  try_catch (getGeeksForGeeks_try query w) (λ err, Normal []).

(** [getUdemy]; [process.env] goes into the request only. *)
Definition udemy_item (c : jsval) : completion course :=
  t ← or_else (get c "title") (get c "name");
  d ← or_else (or_else (get c "headline") (get c "description")) (Normal (JStr ""));
  i ← or_else (or_else (get c "image_480x270") (get c "image_240x135")) (Normal JNull);
  u ← or_else (get c "url") (Normal JNull);
  coupon ← get c "coupon";
  Normal {| title := t; description := d; image := i; url := u;
            platform := "Udemy"; free := truthy coupon |}.

Definition getUdemy_try (query : string) (w : fetch_result)
  : completion (list course) :=
  r ← fetch w;
  if negb (ok r) then Normal []
  else
    data ← json r;
    courses ← get data "courses";
    array_map udemy_item (js_or courses (JArr [])).

Definition getUdemy (query : string) (w : fetch_result)
  : completion (list course) :=
  try_catch (getUdemy_try query w) (λ err, Normal []).

(** ** The handler *)

Inductive source : Type :=
| Coursera | ClassCentral | FreeCodeCamp | GeeksForGeeks | Udemy.

#[export] Instance source_eq_dec : EqDecision source.
Proof. solve_decision. Defined.

(** What the handler's calls meet: the outcome of each adapter's [fetch],
    and the renderings of the successive [Math.random()] draws. *)
Record world : Type := World {
  fetched : source → fetch_result;
  random : nat → string
}.

(** [req.query.q]: missing, one string, or an array of strings when the
    parameter is repeated. *)
Inductive query_param : Type :=
| QMissing
| QString (s : string)
| QArray (ss : list string).

(** [(req.query.q || "").toString().trim()] *)
Definition read_query (p : query_param) : string :=
  JsString.trim
    match p with
    | QMissing => ""
    | QString s => if String.eqb s "" then "" else s
    | QArray ss => JsString.join "," ss
    end.

(** [process.env.RAPIDAPI_KEY] as a condition: set and not empty *)
Definition has_rapidapi_key (env : gmap string string) : bool :=
  match env !! "RAPIDAPI_KEY" with
  | Some k => negb (String.eqb k "")
  | None => false
  end.

(** The sources whose adapters are called, in the order of [promises]. *)
Definition sources (env : gmap string string) : list source :=
  [Coursera; ClassCentral; FreeCodeCamp; GeeksForGeeks] ++
  (if has_rapidapi_key env then [Udemy] else []).

Definition call (q : string) (w : world) (s : source) : completion (list course) :=
  match s with
  | Coursera => getCoursera q (fetched w Coursera)
  | ClassCentral => getClassCentral (fetched w ClassCentral)
  | FreeCodeCamp => getFreeCodeCamp q (fetched w FreeCodeCamp)
  | GeeksForGeeks => getGeeksForGeeks q (fetched w GeeksForGeeks)
  | Udemy => getUdemy q (fetched w Udemy)
  end.

Definition promises (env : gmap string string) (q : string) (w : world)
  : list (completion (list course)) :=
  call q w <$> sources env.

(** [Promise.allSettled] *)
Inductive settled (A : Type) : Type :=
| Fulfilled (value : A)
| Rejected (reason : exn).
Arguments Fulfilled {A} value.
Arguments Rejected {A} reason.

Definition settle {A} (p : completion A) : settled A :=
  match p with
  | Normal a => Fulfilled a
  | Throw e => Rejected e
  end.

Definition allSettled {A} (ps : list (completion A)) : list (settled A) :=
  settle <$> ps.

Definition is_fulfilled {A} (r : settled A) : bool :=
  match r with Fulfilled _ => true | Rejected _ => false end.

(** [r.value || []]; an array is truthy *)
Definition value_or_empty {A} (r : settled (list A)) : list A :=
  match r with Fulfilled v => v | Rejected _ => [] end.

(** A record as the object it is *)
Definition course_obj (c : course) : jsval :=
  JObj [("title", title c); ("description", description c);
        ("image", image c); ("url", url c);
        ("platform", JStr (platform c)); ("free", JBool (free c))].

Definition flatten (results : list (settled (list course))) : list course :=
  List.filter (λ c, truthy (course_obj c))
    (List.flat_map value_or_empty (List.filter is_fulfilled results)).

(** [c.url || c.title || Math.random()], with the index of the next draw:
    [Math.random()] is called only when both fields are falsy. *)
Definition key_operand (rnd : nat → string) (i : nat) (c : course) : jsval * nat :=
  if truthy (url c) then (url c, i)
  else if truthy (title c) then (title c, i)
  else (JNum (rnd i), S i).

(** The dedup loop: [seen] and [deduped] are the loop's two variables,
    [i] counts the draws made so far. *)
Fixpoint dedupe (rnd : nat → string) (i : nat) (seen : gset string)
    (deduped : list course) (cs : list course) : completion (list course) :=
  match cs with
  | [] => Normal deduped
  | c :: cs' =>
      let '(v, i') := key_operand rnd i c in
      key ← toString v;
      if decide (key ∈ seen) then dedupe rnd i' seen deduped cs'
      else dedupe rnd i' ({[key]} ∪ seen) (deduped ++ [c])%list cs'
  end.

(** The [try] block up to the loop's end *)
Definition aggregate (env : gmap string string) (q : string) (w : world)
  : completion (list course) :=
  let results := allSettled (promises env q w) in
  let allCourses := flatten results in
  dedupe (random w) 0 ∅ [] allCourses.

(** *** The response *)
Record server_response : Type := ServerResponse {
  headers : gmap string string;
  statusCode : nat;
  body : option jsval
}.

Definition setHeader (name value : string) (res : server_response) : server_response :=
  {| headers := <[name := value]> (headers res);
     statusCode := statusCode res; body := body res |}.

Definition status (code : nat) (res : server_response) : server_response :=
  {| headers := headers res; statusCode := code; body := body res |}.

Definition finite (r : string) : bool :=
  negb (String.eqb r "NaN") && negb (String.eqb r "Infinity")
  && negb (String.eqb r "-Infinity").

(** The document [JSON.stringify] writes for a value, as a value: a
    property holding [undefined] is left out, [undefined] in an array and a
    number that is not finite are written [null]. *)
Fixpoint stringify (v : jsval) : jsval :=
  match v with
  | JUndefined => JNull
  | JNum r => if finite r then JNum r else JNull
  | JArr xs => JArr (List.map stringify xs)
  | JObj ps =>
      JObj ((fix members (l : list (string * jsval)) : list (string * jsval) :=
               match l with
               | [] => []
               | (k, JUndefined) :: l' => members l'
               | (k, x) :: l' => (k, stringify x) :: members l'
               end) ps)
  | _ => v
  end.

(** [res.json(v)] sends the document of [v]. *)
Definition send_json (v : jsval) (res : server_response) : server_response :=
  {| headers := headers res; statusCode := statusCode res;
     body := Some (stringify v) |}.

(** A value that is a JSON document *)
Fixpoint is_json (v : jsval) : bool :=
  match v with
  | JUndefined => false
  | JNull | JBool _ | JStr _ => true
  | JNum r => finite r
  | JArr xs => forallb is_json xs
  | JObj ps =>
      (fix members (l : list (string * jsval)) : bool :=
         match l with
         | [] => true
         | (_, x) :: l' => is_json x && members l'
         end) ps
  end.

(** [handler].  The statements of the [try] block before the three
    [setHeader] calls do not touch [res], and nothing from these calls on
    throws, so the [catch] block starts from [res] as it was given. *)
Definition handler (env : gmap string string) (q : query_param) (w : world)
    (res : server_response) : server_response :=
  let q := read_query q in
  match aggregate env q w with
  | Normal deduped =>
      let res := setHeader "Cache-Control" "s-maxage=3600, stale-while-revalidate=59" res in
      let res := setHeader "Access-Control-Allow-Origin" "*" res in
      let res := setHeader "Content-Type" "application/json; charset=utf-8" res in
      send_json (JArr (course_obj <$> deduped)) (status 200 res)
  | Throw err =>
      let res := setHeader "Access-Control-Allow-Origin" "*" res in
      send_json (JObj [("error", JStr "Failed to fetch aggregated courses")])
        (status 500 res)
  end.

(** A response object nothing has been written to *)
Definition fresh_response : server_response :=
  {| headers := ∅; statusCode := 200; body := None |}.

(** ** Notions the statements use *)

(** The failures of an adapter's external call: the [fetch] rejects, the
    response is not [ok], or reading the body rejects ([r.json()] for the
    four JSON sources, [r.text()] for the feed). *)
Definition failed (s : source) (fr : fetch_result) : Prop :=
  match fr with
  | FetchRejects _ => True
  | FetchResolves r =>
      ok r = false ∨
      match s with
      | GeeksForGeeks => ∃ e, text r = Throw e
      | _ => ∃ e, json r = Throw e
      end
  end.

(** What a failed call contributes: nothing, or for the curriculum source
    the entry of the branch taken. *)
Definition absorbed (s : source) (fr : fetch_result) : list course :=
  match s with
  | FreeCodeCamp =>
      match fr with
      | FetchRejects _ => [fcc_catch_entry]
      | FetchResolves r => if ok r then [fcc_catch_entry] else [fcc_not_ok_entry]
      end
  | _ => []
  end.

(** All five sources down *)
Definition all_down : world :=
  {| fetched := λ _, FetchRejects NetworkFailure; random := λ _, "0.5" |}.

(** A record the feed adapter may return for [query]: an item built from
    the three groups of a match, tags stripped and trimmed, whose title or
    description contains the query when both sides are lower-cased. *)
Definition gfg_record (query : string) (c : course) : Prop :=
  ∃ m1 m2 m3,
    let t := JsString.trim (stripTags m1) in
    let d := JsString.trim (stripTags m3) in
    c = gfg_item t (JsString.trim (stripTags m2)) d ∧
    JsString.includes (JsString.toLowerCase t) (JsString.toLowerCase query)
    || JsString.includes (JsString.toLowerCase d) (JsString.toLowerCase query) = true.

(** A feed of three items; one of them mentions Python. *)
Definition sample_feed : string :=
  "<rss><channel><item><title>Sorting in <b>Java</b></title><link>https://www.geeksforgeeks.org/a</link><description>Arrays.sort explained</description></item><item><title>List comprehension</title><link>https://www.geeksforgeeks.org/b</link><description>A <i>PYTHON</i> idiom</description></item><item><title>Pointers in C</title><link>https://www.geeksforgeeks.org/c</link><description>Addresses</description></item></channel></rss>".

Definition resolves_text (t : string) : fetch_result :=
  FetchResolves {| ok := true; json := Throw SyntaxError; text := Normal t |}.

Definition resolves_json (v : jsval) : fetch_result :=
  FetchResolves {| ok := true; json := Normal v; text := Throw TypeError |}.

(** The records of a response whose body is an array *)
Definition records_of (res : server_response) : list jsval :=
  match body res with
  | Some (JArr xs) => xs
  | _ => []
  end.

(** The tag each adapter puts on its records *)
Definition source_tag (s : source) : string :=
  match s with
  | Coursera => "Coursera"
  | ClassCentral => "Class Central"
  | FreeCodeCamp => "freeCodeCamp"
  | GeeksForGeeks => "GeeksforGeeks"
  | Udemy => "Udemy"
  end.

(** The members [stringify] writes for an object *)
Definition json_members (ps : list (string * jsval)) : list (string * jsval) :=
  (fix members (l : list (string * jsval)) : list (string * jsval) :=
     match l with
     | [] => []
     | (k, JUndefined) :: l' => members l'
     | (k, x) :: l' => (k, stringify x) :: members l'
     end) ps.

Definition all_json (ps : list (string * jsval)) : bool :=
  (fix members (l : list (string * jsval)) : bool :=
     match l with
     | [] => true
     | (_, x) :: l' => is_json x && members l'
     end) ps.

(** Induction on values, with the elements of an array and the members of
    an object as induction hypotheses. *)
Section jsval_induction.
Variable P : jsval → Prop.
Hypothesis HUndefined : P JUndefined.
Hypothesis HNull : P JNull.
Hypothesis HBool : ∀ b, P (JBool b).
Hypothesis HNum : ∀ r, P (JNum r).
Hypothesis HStr : ∀ s, P (JStr s).
Hypothesis HArr : ∀ xs, Forall P xs → P (JArr xs).
Hypothesis HObj : ∀ ps, Forall (λ p, P p.2) ps → P (JObj ps).

Fixpoint jsval_nested_ind (v : jsval) : P v :=
  match v with
  | JUndefined => HUndefined
  | JNull => HNull
  | JBool b => HBool b
  | JNum r => HNum r
  | JStr s => HStr s
  | JArr xs =>
      HArr xs
        ((fix elements (l : list jsval) : Forall P l :=
            match l with
            | [] => Stdlib.Lists.List.Forall_nil P
            | x :: l' =>
                @Stdlib.Lists.List.Forall_cons _ P x l'
                  (jsval_nested_ind x) (elements l')
            end) xs)
  | JObj ps =>
      HObj ps
        ((fix members (l : list (string * jsval)) : Forall (λ p, P p.2) l :=
            match l with
            | [] => Stdlib.Lists.List.Forall_nil _
            | (k, x) :: l' =>
                @Stdlib.Lists.List.Forall_cons _ (λ p, P p.2) (k, x) l'
                  (jsval_nested_ind x) (members l')
            end) ps)
  end.
End jsval_induction.

(** The Class Central feed answers with one entry whose [url] is an object
    that has a ["toString"] member. *)
Definition odd_url_world : world :=
  {| fetched := λ s,
       match s with
       | ClassCentral =>
           resolves_json
             (JArr [JObj [("title", JStr "Algorithms");
                          ("url", JObj [("toString", JNum "1")])]])
       | _ => FetchRejects NetworkFailure
       end;
     random := λ _, "0.5" |}.

(** *** Dedup keys *)

(** The field a record's key is read from: [url] when it is truthy, else
    [title] when it is truthy; none when the key is a random draw. *)
Definition field_operand (c : course) : option jsval :=
  if truthy (url c) then Some (url c)
  else if truthy (title c) then Some (title c)
  else None.

Definition printed (v : jsval) : option string :=
  match toString v with
  | Normal s => Some s
  | Throw _ => None
  end.

(** The key of a record that does not come from [Math.random()] *)
Definition field_key (c : course) : option string :=
  field_operand c ≫= printed.

(** The key of a record keyed by its [url] *)
Definition url_key (c : course) : option string :=
  if truthy (url c) then printed (url c) else None.

(** A record with neither a (truthy) [url] nor a (truthy) [title] *)
Definition keyless (c : course) : bool :=
  negb (truthy (url c)) && negb (truthy (title c)).

(** Sample records: a Coursera element without name, title and slug; a
    feed item with an empty title and an empty link; a plain entry. *)
Definition untitled (about : string) : course :=
  {| title := JUndefined; description := JStr about; image := JNull;
     url := JNull; platform := "Coursera"; free := true |}.

Definition blank_item (about : string) : course := gfg_item "" "" about.

Definition entry (t u : jsval) (tag : string) : course :=
  {| title := t; description := JStr ""; image := JNull; url := u;
     platform := tag; free := true |}.

Definition two_draws : nat → string :=
  λ n, match n with O => "0.25" | S _ => "0.75" end.

(** Draws that print as 0.1, 0.11, 0.111, ... *)
Fixpoint ones (n : nat) : string :=
  match n with
  | O => "1"
  | S n' => String "1" (ones n')
  end.

Definition counting_draws (n : nat) : string := "0." +:+ ones n.

Definition mixed_courses : list course :=
  [untitled "first";
   entry (JStr "Graphs") (JStr "https://a.example/graphs") "Class Central";
   untitled "second"].

(** *** Text without tags, trimmed text *)

(** No ["<"] of [s] has a [">"] after it: [s] holds no tag. *)
Fixpoint no_tag (s : string) : bool :=
  match s with
  | EmptyString => true
  | String c s' =>
      negb (Ascii.eqb c "<" && JsString.has_char ">" s') && no_tag s'
  end.

Definition starts_with_space (s : string) : bool :=
  match s with
  | EmptyString => false
  | String c _ => JsString.is_space c
  end.

Fixpoint ends_with_space (s : string) : bool :=
  match s with
  | EmptyString => false
  | String c EmptyString => JsString.is_space c
  | String _ s' => ends_with_space s'
  end.

(** Text as the feed adapter stores it *)
Definition clean (s : string) : Prop :=
  no_tag s = true ∧ starts_with_space s = false ∧ ends_with_space s = false.

(** *** The items of a feed *)

(** Every match of [itemRe] in the text, as an item, in the order of the
    text: what the loop of [getGeeksForGeeks] would push with no filter and
    no limit. *)
Fixpoint feed_items (fuel : nat) (rest : string) : list course :=
  match fuel with
  | O => []
  | S fuel' =>
      match itemRe_exec rest with
      | None => []
      | Some (m1, m2, m3, rest') =>
          gfg_item (JsString.trim (stripTags m1)) (JsString.trim (stripTags m2))
            (JsString.trim (stripTags m3))
          :: feed_items fuel' rest'
      end
  end.

(** The filter of the loop, on an item *)
Definition gfg_keeps (query : string) (c : course) : bool :=
  match title c, description c with
  | JStr t, JStr d => negb (gfg_skips query t d)
  | _, _ => false
  end.

(** *** Printing a key *)

(** [c.url || c.title || ...] printed by [ToString], element by element *)
Definition element_string (x : jsval) : completion string :=
  match x with
  | JUndefined | JNull => Normal ""
  | _ => to_string x
  end.

Fixpoint to_string_elements (l : list jsval) : completion (list string) :=
  match l with
  | [] => Normal []
  | x :: l' =>
      match element_string x with
      | Throw e => Throw e
      | Normal s =>
          match to_string_elements l' with
          | Throw e => Throw e
          | Normal ss => Normal (s :: ss)
          end
      end
  end.

(** A value with no object that has an own ["toString"] member, looking
    through arrays *)
Fixpoint printable (v : jsval) : bool :=
  match v with
  | JArr xs => forallb printable xs
  | JObj ps => negb (has_own "toString" ps)
  | _ => true
  end.

(** A record whose key operand ([url] if truthy, else [title] if truthy)
    is printable; a record keyed by a draw always is. *)
Definition key_printable (c : course) : bool :=
  match field_operand c with
  | Some v => printable v
  | None => true
  end.

(** [allCourses], the flattened results of the adapters called *)
Definition allCourses (env : gmap string string) (q : string) (w : world)
  : list course :=
  flatten (allSettled (promises env q w)).

(** What every adapter's records have: the adapter's tag, the [free] flag
    set unless the record is Udemy's, and a description, an image and a url
    that are not [undefined]. *)
Definition well_formed (s : source) (c : course) : Prop :=
  platform c = source_tag s ∧
  (s ≠ Udemy → free c = true) ∧
  description c ≠ JUndefined ∧ image c ≠ JUndefined ∧ url c ≠ JUndefined.

(** *** The requests *)

(** The characters [encodeURIComponent] leaves alone: letters, digits and
    the marks [- _ . ! ~ * ' ( )]. *)
Definition unreserved (c : ascii) : bool :=
  JsString.in_range 65 90 c || JsString.in_range 97 122 c
  || JsString.in_range 48 57 c || JsString.has_char c "-_.!~*'()".

Definition hex_digit (n : nat) : ascii :=
  match String.get n "0123456789ABCDEF" with
  | Some c => c
  | None => "0"%char
  end.

(** ["%XX"] for one octet *)
Definition percent_encode (octet : nat) : string :=
  String "%" (String (hex_digit (octet / 16)) (String (hex_digit (octet mod 16)) "")).

(** The UTF-8 octets of a code unit below 256: one octet below 128, two
    from there on. *)
Definition utf8 (c : ascii) : list nat :=
  let n := JsString.code c in
  if (n <? 128)%nat then [n] else [192 + n / 64; 128 + n mod 64]%nat.

Definition encode_unit (c : ascii) : string :=
  if unreserved c then String c ""
  else String.concat "" (percent_encode <$> utf8 c).

(** [encodeURIComponent]; a string of code units below 256 has no lone
    surrogate, so the call does not throw. *)
Fixpoint encodeURIComponent (s : string) : string :=
  match s with
  | EmptyString => EmptyString
  | String c s' => encode_unit c +:+ encodeURIComponent s'
  end.

(** The URL [getCoursera] fetches; [query || ""] is [query]. *)
Definition coursera_url (query : string) : string :=
  "https://api.coursera.org/api/courses.v1?q=search&query="
  +:+ encodeURIComponent (if String.eqb query "" then "" else query)
  +:+ "&fields=photoUrl,description,slug,subtitle".

(** [process.env.RAPIDAPI_HOST || "udemy-paid-courses-for-free-api.p.rapidapi.com"] *)
Definition udemy_host (env : gmap string string) : string :=
  match env !! "RAPIDAPI_HOST" with
  | Some h =>
      if String.eqb h "" then "udemy-paid-courses-for-free-api.p.rapidapi.com"
      else h
  | None => "udemy-paid-courses-for-free-api.p.rapidapi.com"
  end.

(** The URL [getUdemy] fetches and the headers it sends; the key header is
    [undefined] when the variable is not set. *)
Definition udemy_url (env : gmap string string) (query : string) : string :=
  "https://" +:+ udemy_host env
  +:+ "/rapidapi/courses/search?page=1&page_size=20&query="
  +:+ encodeURIComponent (if String.eqb query "" then "" else query).

Definition udemy_headers (env : gmap string string) : list (string * jsval) :=
  [("X-RapidAPI-Key",
    match env !! "RAPIDAPI_KEY" with Some k => JStr k | None => JUndefined end);
   ("X-RapidAPI-Host", JStr (udemy_host env))].

Fixpoint all_chars (P : ascii → bool) (s : string) : bool :=
  match s with
  | EmptyString => true
  | String c s' => P c && all_chars P s'
  end.

Fixpoint count_char (a : ascii) (s : string) : nat :=
  match s with
  | EmptyString => O
  | String c s' => (if Ascii.eqb a c then 1 else 0) + count_char a s'
  end.

(** The characters an encoded component is made of *)
Definition component_char (c : ascii) : bool :=
  unreserved c || Ascii.eqb c "%".

(** *** The adapters that map a JSON array *)

Definition lists_json (s : source) : bool :=
  match s with
  | Coursera | ClassCentral | Udemy => true
  | FreeCodeCamp | GeeksForGeeks => false
  end.

(** The value whose [map] the adapter calls: [data.elements || []],
    [data || []], [data.courses || []]. *)
Definition listing (s : source) (data : jsval) : completion jsval :=
  match s with
  | Coursera => elements ← get data "elements"; Normal (js_or elements (JArr []))
  | ClassCentral => Normal (js_or data (JArr []))
  | Udemy => courses ← get data "courses"; Normal (js_or courses (JArr []))
  | FreeCodeCamp | GeeksForGeeks => Throw TypeError
  end.

(** The callback the adapter maps *)
Definition item_of (s : source) (c : jsval) : completion course :=
  match s with
  | Coursera => coursera_item c
  | ClassCentral => classcentral_item c
  | Udemy => udemy_item c
  | FreeCodeCamp | GeeksForGeeks => Throw TypeError
  end.

(** Sample answers: a Class Central list with a [null] entry, a Coursera
    list of an element with a slug and one without. *)
Definition broken_list_world : world :=
  {| fetched := λ s,
       match s with
       | ClassCentral =>
           resolves_json
             (JArr [JObj [("title", JStr "Algorithms");
                          ("url", JStr "https://a.example/algo")];
                    JNull])
       | _ => FetchRejects NetworkFailure
       end;
     random := two_draws |}.

Definition coursera_sample : fetch_result :=
  resolves_json
    (JObj [("elements",
            JArr [JObj [("name", JStr "Machine Learning");
                        ("slug", JStr "machine-learning")];
                  JObj [("name", JStr "Untitled draft")]])]).

(** *** The run of the dedup loop *)

(** The keys the loop computes for the records of [cs] in turn, the first
    draw it makes being draw [i]. *)
Fixpoint loop_keys (rnd : nat → string) (i : nat) (cs : list course)
  : completion (list string) :=
  match cs with
  | [] => Normal []
  | c :: cs' =>
      let '(v, i') := key_operand rnd i c in
      key ← toString v;
      keys ← loop_keys rnd i' cs';
      Normal (key :: keys)
  end.

(** The number of [Math.random()] calls of a run that returns: one for
    each record with neither a truthy url nor a truthy title. *)
Definition draws_made (cs : list course) : nat :=
  length (filter (λ c, keyless c = true) cs).

(** Sample inputs: a record without url whose title is the url of the next
    record; two records without url and title around a duplicated url. *)
Definition shadowed_courses : list course :=
  [entry (JStr "https://a.example/algo") JNull "Class Central";
   entry (JStr "Algorithms") (JStr "https://a.example/algo") "Coursera";
   entry (JStr "Algorithms, again") (JStr "https://a.example/algo") "Udemy"].

Definition catalog_courses : list course :=
  [entry (JStr "Algorithms") (JStr "https://a.example/algo") "Coursera";
   entry (JStr "Algorithms") (JStr "https://a.example/algo") "Udemy";
   entry (JStr "Graphs") JNull "Class Central";
   entry (JStr "Graphs") JNull "Coursera"].

Definition keyless_courses : list course :=
  [untitled "first";
   entry (JStr "Graphs") (JStr "https://a.example/graphs") "Class Central";
   entry (JStr "Graphs, again") (JStr "https://a.example/graphs") "Coursera";
   untitled "second"].

(** A configuration with the key set, and a world in which only the Udemy
    source answers. *)
Definition udemy_env : gmap string string := {[ "RAPIDAPI_KEY" := "secret" ]}.

Definition udemy_course : course :=
  {| title := JStr "Python Bootcamp"; description := JStr "";
     image := JNull; url := JStr "https://www.udemy.com/course/python-bootcamp";
     platform := "Udemy"; free := true |}.

Definition udemy_world : world :=
  {| fetched := λ s,
       match s with
       | Udemy =>
           resolves_json
             (JObj [("courses",
                     JArr [JObj [("title", JStr "Python Bootcamp");
                                 ("url", JStr "https://www.udemy.com/course/python-bootcamp");
                                 ("coupon", JStr "FREE")]])])
       | _ => FetchRejects NetworkFailure
       end;
     random := two_draws |}.

(** * Properties *)

Local Open Scope list_scope.
Local Open Scope nat_scope.
Local Set Warnings "-clear-no-such-hyp".

(** ** Completions *)

Lemma bind_Normal {A B} (a : A) (f : A → completion B) :
  (Normal a ≫= f) = f a.
Proof. reflexivity. Qed.

Lemma bind_Throw {A B} (e : exn) (f : A → completion B) :
  (Throw e ≫= f) = Throw e.
Proof. reflexivity. Qed.

Lemma try_catch_returns {A} (body : completion A) (fallback : A) :
  ∃ a, try_catch body (λ err, Normal fallback) = Normal a.
Proof. destruct body; simpl; eauto. Qed.

Lemma try_catch_Throw {A} (body : completion A) (h : exn → completion A) e :
  body = Throw e → try_catch body h = h e.
Proof. intros ->. reflexivity. Qed.

(** ** The adapters absorb their failures *)

Lemma call_returns q w s : ∃ l, call q w s = Normal l.
Proof. destruct s; apply try_catch_returns. Qed.

Lemma call_failed q w s :
  failed s (fetched w s) → call q w s = Normal (absorbed s (fetched w s)).
Proof.
  unfold failed.
  destruct s; simpl;
    unfold getCoursera, getCoursera_try, getClassCentral, getClassCentral_try,
      getFreeCodeCamp, getFreeCodeCamp_try, getGeeksForGeeks,
      getGeeksForGeeks_try, getUdemy, getUdemy_try;
    destruct (fetched w _) as [e|[o j t]]; simpl; try reflexivity;
    (intros [-> | [e He]]; [reflexivity |]);
    destruct o; simpl in *; subst; reflexivity.
Qed.

(** C7.  Whatever the query and whatever the outside world does, each of
    the five adapters returns a list and does not throw; when its call
    fails (the fetch rejects, the status is not a success, the body cannot
    be read) it returns the empty list, the curriculum adapter its fallback
    entry; and an exception raised anywhere inside an adapter ends in that
    same result. *)
Theorem adapters_never_raise (q : string) (w : world) (s : source) :
  (∃ l, call q w s = Normal l) ∧
  (failed s (fetched w s) → call q w s = Normal (absorbed s (fetched w s))) ∧
  (∀ e, getCoursera_try q (fetched w Coursera) = Throw e →
        getCoursera q (fetched w Coursera) = Normal []) ∧
  (∀ e, getClassCentral_try (fetched w ClassCentral) = Throw e →
        getClassCentral (fetched w ClassCentral) = Normal []) ∧
  (∀ e, getFreeCodeCamp_try (fetched w FreeCodeCamp) = Throw e →
        getFreeCodeCamp q (fetched w FreeCodeCamp) = Normal [fcc_catch_entry]) ∧
  (∀ e, getGeeksForGeeks_try q (fetched w GeeksForGeeks) = Throw e →
        getGeeksForGeeks q (fetched w GeeksForGeeks) = Normal []) ∧
  (∀ e, getUdemy_try q (fetched w Udemy) = Throw e →
        getUdemy q (fetched w Udemy) = Normal []).
Proof.
  split; [apply call_returns|].
  split; [apply call_failed|].
  repeat split; intros e He;
    (unfold getCoursera, getClassCentral, getFreeCodeCamp, getGeeksForGeeks,
       getUdemy; by rewrite He).
Qed.

Lemma adapters_never_raise_witness :
  call "python" all_down Coursera = Normal [].
Proof.
  apply (proj1 (proj2 (adapters_never_raise "python" all_down Coursera))).
  simpl. exact I.
Defined.

(** ** The curriculum adapter *)

Lemma or_else_get_returns (data : jsval) (k : string) (d : jsval) :
  (∃ e, get data k = Throw e) ∨
  (∃ v, or_else (get data k) (Normal d) = Normal v).
Proof.
  unfold or_else. destruct (get data k) as [x|e]; simpl; [right | left; eauto].
  destruct (truthy x); eauto.
Qed.

Lemma getFreeCodeCamp_one q fr :
  ∃ c, getFreeCodeCamp q fr = Normal [c] ∧ platform c = "freeCodeCamp".
Proof.
  unfold getFreeCodeCamp, getFreeCodeCamp_try.
  destruct fr as [e|[o j t]]; simpl; [by eexists|].
  destruct o; simpl; [|by eexists].
  destruct j as [data|e]; simpl; [|by eexists].
  unfold or_else.
  destruct (get data "title") as [x|e]; simpl; [|by eexists].
  destruct (get data "description") as [y|e']; simpl;
    [|destruct (truthy x); by eexists].
  destruct (truthy x), (truthy y); simpl; by eexists.
Qed.

(** C4.  For every query and every outcome of the external call the
    curriculum adapter returns a list that is not empty (one record, tagged
    freeCodeCamp); when the source is unreachable (the fetch rejects) it is
    the one record with the tag freeCodeCamp and the fixed title
    "freeCodeCamp: Learn". *)
Theorem getFreeCodeCamp_never_empty (q : string) (fr : fetch_result) :
  (∃ l, getFreeCodeCamp q fr = Normal l ∧ l ≠ [] ∧
        ∃ c, l = [c] ∧ platform c = "freeCodeCamp") ∧
  (∀ e, ∃ c, getFreeCodeCamp q (FetchRejects e) = Normal [c] ∧
             platform c = "freeCodeCamp" ∧ title c = JStr "freeCodeCamp: Learn").
Proof.
  split.
  - destruct (getFreeCodeCamp_one q fr) as (c & Hc & Hp).
    exists [c]. split; [done|]. split; [done|]. by exists c.
  - intros e. by exists fcc_catch_entry.
Qed.

(** ** The feed adapter *)

Lemma match_literal_length lit s r :
  JsString.match_literal lit s = Some r →
  String.length s = String.length lit + String.length r.
Proof.
  revert s. induction lit as [|p lit IH]; intros s H.
  - simpl in H. destruct s; by simplify_eq.
  - destruct s as [|c s]; simpl in H; [done|].
    destruct (JsString.ci_eq p c); [|done]. simpl. by rewrite (IH _ H).
Qed.

Lemma lazy_until_length lit s skipped r :
  JsString.lazy_until lit s = Some (skipped, r) →
  (String.length lit + String.length r ≤ String.length s)%nat.
Proof.
  revert skipped. induction s as [|c s IH]; intros skipped H; simpl in H.
  - destruct (JsString.match_literal lit "") eqn:E; [|done].
    apply match_literal_length in E. simplify_eq. simpl in *. lia.
  - destruct (JsString.match_literal lit (String c s)) eqn:E.
    + apply match_literal_length in E. simplify_eq. simpl in *. lia.
    + destruct (JsString.lazy_until lit s) as [[a b]|]; [|done].
      simplify_eq. specialize (IH _ eq_refl). simpl. lia.
Qed.

Lemma itemRe_exec_consumes s m1 m2 m3 r :
  itemRe_exec s = Some (m1, m2, m3, r) → (String.length r < String.length s)%nat.
Proof.
  unfold itemRe_exec. intros H.
  repeat match type of H with
  | context [JsString.lazy_until ?lit ?x] =>
      let E := fresh "E" in
      destruct (JsString.lazy_until lit x) as [[? ?]|] eqn:E; simpl in H;
      [apply lazy_until_length in E; simpl in E | done]
  end.
  simplify_eq. lia.
Qed.

#[local] Arguments gfg_loop : simpl never.

Lemma gfg_loop_0 query rest items : gfg_loop 0 query rest items = items.
Proof. reflexivity. Qed.

Lemma gfg_loop_S fuel query rest items :
  gfg_loop (S fuel) query rest items =
  match itemRe_exec rest with
  | None => items
  | Some (m1, m2, m3, rest') =>
      let title := JsString.trim (stripTags m1) in
      let link := JsString.trim (stripTags m2) in
      let desc := JsString.trim (stripTags m3) in
      if gfg_skips query title desc then gfg_loop fuel query rest' items
      else
        let items' := (items ++ [gfg_item title link desc])%list in
        if (20 <=? length items')%nat then items'
        else gfg_loop fuel query rest' items'
  end.
Proof. reflexivity. Qed.

(** Any fuel above the length of the text is enough: the loop's result does
    not depend on it. *)
Lemma gfg_loop_fuel n m query rest items :
  (String.length rest < n)%nat → (String.length rest < m)%nat →
  gfg_loop n query rest items = gfg_loop m query rest items.
Proof.
  revert m rest items. induction n as [|n IH]; intros [|m] rest items Hn Hm;
    try lia.
  rewrite !gfg_loop_S. destruct (itemRe_exec rest) as [[[[m1 m2] m3] rest']|] eqn:E; [|done].
  apply itemRe_exec_consumes in E.
  cbv zeta. destruct (gfg_skips _ _ _); [apply IH; lia|].
  destruct (Nat.leb 20 _); [done|]. apply IH; lia.
Qed.

Lemma gfg_loop_invariant (P : course → Prop) fuel query rest items :
  (∀ m1 m2 m3,
     let t := JsString.trim (stripTags m1) in
     let d := JsString.trim (stripTags m3) in
     gfg_skips query t d = false →
     P (gfg_item t (JsString.trim (stripTags m2)) d)) →
  Forall P items → (length items < 20)%nat →
  Forall P (gfg_loop fuel query rest items) ∧
  (length (gfg_loop fuel query rest items) ≤ 20)%nat.
Proof.
  intros HP. revert rest items.
  induction fuel as [|fuel IH]; intros rest items Hitems Hlen.
  { rewrite gfg_loop_0. split; [done | lia]. }
  rewrite gfg_loop_S.
  destruct (itemRe_exec rest) as [[[[m1 m2] m3] rest']|]; [|split; [done | lia]].
  cbv zeta. destruct (gfg_skips _ _ _) eqn:Hskip; [by apply IH|].
  assert (Forall P (items ++ [gfg_item (JsString.trim (stripTags m1))
            (JsString.trim (stripTags m2)) (JsString.trim (stripTags m3))]))
    as Hitems'.
  { apply Forall_app. split; [done|]. apply Forall_singleton. by apply HP. }
  destruct (Nat.leb 20 _) eqn:Hfull.
  - split; [done|]. rewrite length_app. simpl. lia.
  - apply IH; [done|]. apply Nat.leb_gt in Hfull. done.
Qed.

Lemma gfg_skips_false query t d :
  query ≠ "" → gfg_skips query t d = false →
  JsString.includes (JsString.toLowerCase t) (JsString.toLowerCase query)
  || JsString.includes (JsString.toLowerCase d) (JsString.toLowerCase query) = true.
Proof.
  intros Hq. unfold gfg_skips.
  destruct (String.eqb_spec query ""); [done|]. simpl.
  destruct (JsString.includes (JsString.toLowerCase t) _),
           (JsString.includes (JsString.toLowerCase d) _); simpl; congruence.
Qed.

(** C6.  For every query that is not empty and every outcome of the call,
    the feed adapter returns at most 20 records, and each of them is an item
    whose tag-stripped title or tag-stripped description contains the query
    as a substring when case is ignored. *)
Theorem getGeeksForGeeks_filters (query : string) (fr : fetch_result) :
  query ≠ "" →
  ∃ items, getGeeksForGeeks query fr = Normal items ∧
           (length items ≤ 20)%nat ∧ Forall (gfg_record query) items.
Proof.
  intros Hq. unfold getGeeksForGeeks, getGeeksForGeeks_try.
  destruct fr as [e|[o j t]]; simpl.
  { exists []. split; [done|]. split; [simpl; lia | constructor]. }
  destruct o; simpl; [|exists []; split; [done|]; split; [simpl; lia | constructor]].
  destruct t as [t|e]; simpl;
    [|exists []; split; [done|]; split; [simpl; lia | constructor]].
  eexists. split; [reflexivity|].
  destruct (gfg_loop_invariant (gfg_record query) (S (String.length t)) query t [])
    as [HP Hlen]; [| constructor | simpl; lia | done].
  intros m1 m2 m3 t' d' Hskip. exists m1, m2, m3.
  split; [done|]. by apply gfg_skips_false.
Qed.

Lemma getGeeksForGeeks_filters_witness :
  ∃ items, getGeeksForGeeks "python" (resolves_text sample_feed) = Normal items ∧
           (length items ≤ 20)%nat ∧ Forall (gfg_record "python") items.
Proof.
  apply (getGeeksForGeeks_filters "python" (resolves_text sample_feed)).
  discriminate.
Defined.

(** Of the three items of the sample feed, one mentions the query. *)
Example getGeeksForGeeks_sample :
  getGeeksForGeeks "python" (resolves_text sample_feed) =
  Normal [gfg_item "List comprehension" "https://www.geeksforgeeks.org/b"
            "A PYTHON idiom"].
Proof. vm_compute. reflexivity. Qed.

(** ** Where the records come from *)

Lemma mapM_completion_Forall {A B} (f : A → completion B) (P : B → Prop) xs l :
  (∀ x y, f x = Normal y → P y) → mapM f xs = Normal l → Forall P l.
Proof.
  intros Hf. revert l. induction xs as [|x xs IH]; intros l H; simpl in H.
  - injection H as <-. constructor.
  - destruct (f x) as [y|e] eqn:Hy; simpl in H; [|done].
    destruct (mapM f xs) as [k|e]; simpl in H; [|done].
    injection H as <-. constructor; eauto.
Qed.

Lemma array_map_Forall {B} (f : jsval → completion B) (P : B → Prop) v l :
  (∀ x y, f x = Normal y → P y) → array_map f v = Normal l → Forall P l.
Proof. destruct v; simpl; try done. apply mapM_completion_Forall. Qed.

(** Inversion of a bind that returned *)
Ltac bind_inv H :=
  repeat match type of H with
  | (?m ≫= _) = Normal _ =>
      let x := fresh "x" in
      destruct m as [x|] eqn:?; simpl in H; [|discriminate H]
  | (if ?b then _ else _) = Normal _ => destruct b eqn:?
  | Normal _ = Normal _ => injection H as <-
  end.

Lemma try_catch_inv {A} (body : completion A) (fallback l : A) :
  try_catch body (λ err, Normal fallback) = Normal l →
  body = Normal l ∨ l = fallback.
Proof. destruct body; simpl; intros [= <-]; auto. Qed.

Lemma coursera_item_platform c y :
  coursera_item c = Normal y → platform y = "Coursera".
Proof. unfold coursera_item. intros H. bind_inv H; reflexivity. Qed.

Lemma classcentral_item_platform c y :
  classcentral_item c = Normal y → platform y = "Class Central".
Proof. unfold classcentral_item. intros H. bind_inv H; reflexivity. Qed.

Lemma udemy_item_platform c y :
  udemy_item c = Normal y → platform y = "Udemy".
Proof. unfold udemy_item. intros H. bind_inv H; reflexivity. Qed.

(** Every record an adapter returns carries the adapter's tag. *)
Lemma call_platform q w s l :
  call q w s = Normal l → Forall (λ c, platform c = source_tag s) l.
Proof.
  destruct s; simpl.
  - intros [H| ->]%try_catch_inv; [|constructor].
    unfold getCoursera_try in H. bind_inv H; [constructor|].
    eapply array_map_Forall; [apply coursera_item_platform | done].
  - intros [H| ->]%try_catch_inv; [|constructor].
    unfold getClassCentral_try in H. bind_inv H; [constructor|].
    eapply array_map_Forall; [apply classcentral_item_platform | done].
  - intros H. destruct (getFreeCodeCamp_one q (fetched w FreeCodeCamp))
      as (c & Hc & Hp).
    rewrite Hc in H. injection H as <-. by constructor.
  - intros [H| ->]%try_catch_inv; [|constructor].
    unfold getGeeksForGeeks_try in H. bind_inv H; [constructor|].
    eapply proj1, gfg_loop_invariant; [done | constructor | simpl; lia].
  - intros [H| ->]%try_catch_inv; [|constructor].
    unfold getUdemy_try in H. bind_inv H; [constructor|].
    eapply array_map_Forall; [apply udemy_item_platform | done].
Qed.

Lemma flatten_origin env q w c :
  In c (flatten (allSettled (promises env q w))) →
  ∃ s, s ∈ sources env ∧ platform c = source_tag s.
Proof.
  unfold flatten. rewrite List.filter_In. intros [H _].
  apply List.in_flat_map in H as (r & Hr & Hc).
  apply List.filter_In in Hr as [Hr _].
  apply list_elem_of_In in Hr.
  unfold allSettled, promises in Hr.
  apply list_elem_of_fmap in Hr as (p & -> & Hp).
  apply list_elem_of_fmap in Hp as (s & -> & Hs).
  exists s. split; [done|].
  destruct (call q w s) as [l|e] eqn:Hcall; simpl in Hc; [|done].
  apply call_platform in Hcall. rewrite Forall_forall in Hcall.
  apply Hcall. by apply list_elem_of_In.
Qed.

(** ** The dedup loop: first facts *)

Lemma dedupe_acc rnd cs : ∀ i seen acc,
  dedupe rnd i seen acc cs = (r ← dedupe rnd i seen [] cs; Normal (acc ++ r)).
Proof.
  induction cs as [|c cs IH]; intros i seen acc; simpl.
  { by rewrite app_nil_r. }
  destruct (key_operand rnd i c) as [v i'].
  destruct (toString v) as [key|e]; simpl; [|done].
  case_decide; [apply IH|].
  rewrite IH, (IH _ _ [c]).
  destruct (dedupe rnd i' _ [] cs); simpl; [|done].
  by rewrite <- app_assoc.
Qed.

(** One turn of the loop, the records kept from here on being returned *)
Lemma dedupe_cons rnd i seen c cs :
  dedupe rnd i seen [] (c :: cs) =
  (key ← toString (key_operand rnd i c).1;
   if decide (key ∈ seen) then dedupe rnd (key_operand rnd i c).2 seen [] cs
   else r ← dedupe rnd (key_operand rnd i c).2 ({[key]} ∪ seen) [] cs;
        Normal (c :: r)).
Proof.
  simpl. destruct (key_operand rnd i c) as [v i']; simpl.
  destruct (toString v) as [key|e]; simpl; [|done].
  case_decide; [done|]. by rewrite dedupe_acc.
Qed.

(** Inversion of one turn *)
Lemma dedupe_cons_inv rnd i seen c cs out :
  dedupe rnd i seen [] (c :: cs) = Normal out →
  ∃ key, toString (key_operand rnd i c).1 = Normal key ∧
    ((key ∈ seen ∧ dedupe rnd (key_operand rnd i c).2 seen [] cs = Normal out) ∨
     ((key ∉ seen) ∧ ∃ r, out = c :: r ∧
        dedupe rnd (key_operand rnd i c).2 ({[key]} ∪ seen) [] cs = Normal r)).
Proof.
  rewrite dedupe_cons.
  destruct (toString _) as [key|e]; simpl; [|done].
  intros H. exists key. split; [done|].
  case_decide; [by left | right]. split; [done|].
  destruct (dedupe _ _ _ [] cs) as [r|]; simpl in H; [|done].
  injection H as <-. by exists r.
Qed.

Lemma dedupe_Forall (P : course → Prop) rnd cs : ∀ i seen out,
  Forall P cs → dedupe rnd i seen [] cs = Normal out → Forall P out.
Proof.
  induction cs as [|c cs IH]; intros i seen out Hcs H.
  { injection H as <-. constructor. }
  apply Forall_cons in Hcs as [Hc Hcs].
  apply dedupe_cons_inv in H as (key & _ & [[_ H] | (_ & r & -> & H)]).
  - eauto.
  - constructor; eauto.
Qed.

(** The dedup loop returns whenever every key operand can be printed; it
    throws on the first one that cannot. *)
Lemma dedupe_returns rnd cs : ∀ i seen,
  (∀ c, c ∈ cs → ∀ j, ∃ key, toString (key_operand rnd j c).1 = Normal key) →
  ∃ out, dedupe rnd i seen [] cs = Normal out.
Proof.
  induction cs as [|c cs IH]; intros i seen Hkeys; [by eexists|].
  rewrite dedupe_cons.
  destruct (Hkeys c (list_elem_of_here _ _) i) as [key ->]; simpl.
  assert (∀ c', c' ∈ cs → ∀ j, ∃ key, toString (key_operand rnd j c').1 = Normal key)
    as Hrest by (intros c' Hc'; apply Hkeys; by constructor).
  case_decide; [by apply IH|].
  destruct (IH (key_operand rnd i c).2 ({[key]} ∪ seen) Hrest) as [r ->].
  by eexists.
Qed.

(** ** Which adapters run *)

Lemma sources_Udemy env : Udemy ∈ sources env ↔ has_rapidapi_key env = true.
Proof.
  unfold sources. destruct (has_rapidapi_key env); split; try done.
  - intros _. set_solver.
  - rewrite app_nil_r. intros H.
    repeat (apply elem_of_cons in H as [H|H]; [discriminate H|]).
    by apply elem_of_nil in H.
Qed.

Lemma has_rapidapi_key_spec env :
  has_rapidapi_key env = true ↔ ∃ k, env !! "RAPIDAPI_KEY" = Some k ∧ k ≠ "".
Proof.
  unfold has_rapidapi_key. destruct (env !! "RAPIDAPI_KEY") as [k|].
  - destruct (String.eqb_spec k ""); simpl; split.
    + done.
    + intros (k' & [= <-] & Hk). done.
    + intros _. by exists k.
    + done.
  - split; [done|]. by intros (k & ? & _).
Qed.

Lemma aggregate_origin env q w deduped :
  aggregate env q w = Normal deduped →
  Forall (λ c, ∃ s, s ∈ sources env ∧ platform c = source_tag s) deduped.
Proof.
  unfold aggregate. apply dedupe_Forall.
  apply Forall_forall. intros c Hc. apply (flatten_origin env q w).
  by apply list_elem_of_In.
Qed.

(** ** The document of a record *)

Lemma json_members_cons k x ps :
  json_members ((k, x) :: ps) =
  match x with
  | JUndefined => json_members ps
  | _ => (k, stringify x) :: json_members ps
  end.
Proof. by destruct x. Qed.

Lemma own_property_json_members k ps v :
  own_property k ps = Some v → v ≠ JUndefined →
  own_property k (json_members ps) = Some (stringify v).
Proof.
  intros H Hv. induction ps as [|[k' x] ps IH]; [done|].
  rewrite json_members_cons. simpl in H.
  destruct (String.eqb k k') eqn:Hk.
  - injection H as ->. destruct v; try done; simpl; by rewrite Hk.
  - destruct x; simpl; rewrite ?Hk; auto.
Qed.

Lemma stringify_course_platform c :
  get (stringify (course_obj c)) "platform" = Normal (JStr (platform c)).
Proof.
  change (stringify (course_obj c)) with
    (JObj (json_members
       [("title", title c); ("description", description c); ("image", image c);
        ("url", url c); ("platform", JStr (platform c)); ("free", JBool (free c))])).
  unfold get.
  by rewrite (own_property_json_members "platform" _ (JStr (platform c))).
Qed.

Lemma all_json_cons k x ps : all_json ((k, x) :: ps) = is_json x && all_json ps.
Proof. reflexivity. Qed.

(** What [JSON.stringify] writes is a JSON document. *)
Lemma is_json_stringify v : is_json (stringify v) = true.
Proof.
  induction v as [| |b|r|s|xs IH|ps IH] using jsval_nested_ind; try done.
  - simpl. destruct (finite r) eqn:Hr; simpl; done.
  - simpl. induction IH as [|x xs Hx _ IHxs]; simpl; [done|].
    by rewrite Hx, IHxs.
  - change (all_json (json_members ps) = true).
    induction IH as [|[k x] ps Hx _ IHps]; [done|].
    rewrite json_members_cons. simpl in Hx.
    destruct x; rewrite ?all_json_cons, ?Hx, ?IHps; done.
Qed.

(** ** The paid-course source *)

Lemma records_of_handler env q w res :
  records_of (handler env q w res) =
  match aggregate env (read_query q) w with
  | Normal deduped => stringify <$> (course_obj <$> deduped)
  | Throw _ => []
  end.
Proof. unfold handler. by destruct (aggregate _ _ _). Qed.

Lemma no_key_no_Udemy env q w deduped :
  has_rapidapi_key env = false →
  aggregate env q w = Normal deduped →
  Forall (λ c, platform c ≠ "Udemy") deduped.
Proof.
  intros Hkey H. apply aggregate_origin in H.
  eapply Forall_impl; [exact H|]. intros c (s & Hs & ->).
  destruct s; try discriminate.
  apply sources_Udemy in Hs. congruence.
Qed.

(** ** The response *)

(** C3, as the code has it.  Every response has a body that is a JSON
    document and carries Access-Control-Allow-Origin: *.  The response is
    either the status 200 one, which also carries Cache-Control: s-maxage=3600,
    stale-while-revalidate=59 and Content-Type: application/json;
    charset=utf-8, or the status 500 one, on which the handler sets no header
    but the cross-origin one (its Cache-Control is whatever the response
    object had before). *)
Theorem response_shape (env : gmap string string) (q : query_param)
    (w : world) (res : server_response) :
  let r := handler env q w res in
  (∃ doc, body r = Some doc ∧ is_json doc = true) ∧
  headers r !! "Access-Control-Allow-Origin" = Some "*" ∧
  ((statusCode r = 200 ∧
    headers r !! "Cache-Control" = Some "s-maxage=3600, stale-while-revalidate=59" ∧
    headers r !! "Content-Type" = Some "application/json; charset=utf-8" ∧
    ∃ deduped, aggregate env (read_query q) w = Normal deduped ∧
               body r = Some (JArr (stringify <$> (course_obj <$> deduped)))) ∨
   (statusCode r = 500 ∧
    headers r = <["Access-Control-Allow-Origin" := "*"]> (headers res) ∧
    headers r !! "Cache-Control" = headers res !! "Cache-Control" ∧
    body r = Some (JObj [("error", JStr "Failed to fetch aggregated courses")]) ∧
    ∃ e, aggregate env (read_query q) w = Throw e)).
Proof.
  unfold handler, send_json, status, setHeader.
  destruct (aggregate env (read_query q) w) as [deduped|e];
    cbn [headers statusCode body].
  - split; [eexists; split; [reflexivity|]; apply (is_json_stringify (JArr _))|].
    split; [rewrite lookup_insert_ne by done; by rewrite lookup_insert_eq|].
    left. split; [done|].
    split; [rewrite !lookup_insert_ne by done; by rewrite lookup_insert_eq|].
    split; [by rewrite lookup_insert_eq|]. by exists deduped.
  - split; [by eexists|]. split; [by rewrite lookup_insert_eq|].
    right. split; [done|]. split; [done|].
    split; [by rewrite lookup_insert_ne by done|]. split; [done|]. by exists e.
Qed.

(** C3, as stated, fails: the Class Central entry whose [url] cannot be
    printed makes the dedup loop throw, and the status 500 response that
    follows has no Cache-Control header. *)
Lemma response_500_without_cache_control :
  let r := handler ∅ QMissing odd_url_world fresh_response in
  statusCode r = 500 ∧
  headers r !! "Cache-Control" ≠ Some "s-maxage=3600, stale-while-revalidate=59" ∧
  headers r !! "Cache-Control" = None.
Proof. vm_compute. repeat split; discriminate. Qed.

(** ** When every source fails *)

Lemma dedupe_fcc_entry rnd c :
  c = fcc_catch_entry ∨ c = fcc_not_ok_entry →
  dedupe rnd 0 ∅ [] [c] = Normal [c].
Proof. intros [-> | ->]; vm_compute; reflexivity. Qed.

Lemma absorbed_fcc fr :
  absorbed FreeCodeCamp fr = [fcc_catch_entry] ∨
  absorbed FreeCodeCamp fr = [fcc_not_ok_entry].
Proof. destruct fr as [e|[[] j t]]; simpl; auto. Qed.

Lemma aggregate_all_failed env q w :
  (∀ s, s ∈ sources env → failed s (fetched w s)) →
  aggregate env q w = Normal (absorbed FreeCodeCamp (fetched w FreeCodeCamp)).
Proof.
  intros Hfail.
  assert (∀ s, s ∈ sources env → call q w s = Normal (absorbed s (fetched w s)))
    as Hcall by (intros s Hs; by apply call_failed, Hfail).
  unfold aggregate, promises. unfold sources in *.
  revert Hcall. destruct (has_rapidapi_key env); intros Hcall;
    cbn [app fmap list_fmap];
    rewrite !Hcall
      by (repeat first [apply list_elem_of_here | apply list_elem_of_further]);
    destruct (absorbed_fcc (fetched w FreeCodeCamp)) as [-> | ->];
    vm_compute; reflexivity.
Qed.

(** C1, as the code has it.  If every adapter the handler calls fails, the
    response has status 200, not 500, and its body is the array that holds
    the one fallback record of the curriculum adapter (the entry of the
    branch taken there) and nothing else. *)
Theorem all_sources_fail (env : gmap string string) (q : query_param)
    (w : world) (res : server_response) :
  (∀ s, s ∈ sources env → failed s (fetched w s)) →
  let r := handler env q w res in
  statusCode r = 200 ∧
  ∃ c, (c = fcc_catch_entry ∨ c = fcc_not_ok_entry) ∧
       absorbed FreeCodeCamp (fetched w FreeCodeCamp) = [c] ∧
       aggregate env (read_query q) w = Normal [c] ∧
       body r = Some (JArr [stringify (course_obj c)]).
Proof.
  intros Hfail. unfold handler.
  rewrite (aggregate_all_failed env (read_query q) w Hfail).
  destruct (absorbed_fcc (fetched w FreeCodeCamp)) as [E | E]; rewrite E;
    (split; [done|]); eexists; (split; [|split; [reflexivity|split; reflexivity]]);
    auto.
Qed.

Lemma all_down_failed s : failed s (fetched all_down s).
Proof. exact I. Qed.

Lemma all_sources_fail_witness :
  let r := handler ∅ QMissing all_down fresh_response in
  statusCode r = 200 ∧
  ∃ c, (c = fcc_catch_entry ∨ c = fcc_not_ok_entry) ∧
       absorbed FreeCodeCamp (fetched all_down FreeCodeCamp) = [c] ∧
       aggregate ∅ (read_query QMissing) all_down = Normal [c] ∧
       body r = Some (JArr [stringify (course_obj c)]).
Proof.
  apply (all_sources_fail ∅ QMissing all_down fresh_response).
  intros s _. simpl. exact I.
Defined.

(** C1, as stated, fails: with every source unreachable the body is not
    the empty array, it holds the curriculum adapter's fallback record. *)
Lemma all_sources_fail_body_not_empty :
  (∀ s, failed s (fetched all_down s)) ∧
  let r := handler ∅ QMissing all_down fresh_response in
  statusCode r = 200 ∧
  body r ≠ Some (JArr []) ∧
  body r = Some (JArr [stringify (course_obj fcc_catch_entry)]).
Proof.
  split; [apply all_down_failed|]. vm_compute. repeat split; discriminate.
Qed.

(** ** The dedup loop: keys *)

Lemma key_operand_field rnd i c v :
  field_operand c = Some v → key_operand rnd i c = (v, i).
Proof.
  unfold field_operand, key_operand.
  destruct (truthy (url c)); [congruence|].
  destruct (truthy (title c)); congruence.
Qed.

Lemma key_operand_keyless rnd i c :
  field_operand c = None → key_operand rnd i c = (JNum (rnd i), S i).
Proof.
  unfold field_operand, key_operand.
  destruct (truthy (url c)); [done|]. by destruct (truthy (title c)).
Qed.

Lemma keyless_field_operand c : keyless c = true ↔ field_operand c = None.
Proof.
  unfold keyless, field_operand.
  destruct (truthy (url c)), (truthy (title c)); simpl; split; done.
Qed.

Lemma field_key_operand rnd i c k :
  field_key c = Some k →
  toString (key_operand rnd i c).1 = Normal k ∧ (key_operand rnd i c).2 = i.
Proof.
  unfold field_key. destruct (field_operand c) as [v|] eqn:Hv; [|done].
  rewrite (key_operand_field rnd i c v Hv). simpl. unfold printed.
  destruct (toString v); [|done]. by intros [= ->].
Qed.

(** The key the loop computes is the field key, or the next draw. *)
Lemma record_key_cases rnd i c key :
  toString (key_operand rnd i c).1 = Normal key →
  (field_key c = Some key ∧ (key_operand rnd i c).2 = i) ∨
  (keyless c = true ∧ key = rnd i ∧ (key_operand rnd i c).2 = S i).
Proof.
  unfold field_key. destruct (field_operand c) as [v|] eqn:Hv.
  - rewrite (key_operand_field rnd i c v Hv). simpl. intros H. left.
    unfold printed. by rewrite H.
  - rewrite (key_operand_keyless rnd i c Hv). simpl. intros [= <-]. right.
    by rewrite keyless_field_operand.
Qed.

Lemma url_key_field_key c u : url_key c = Some u → field_key c = Some u.
Proof.
  unfold url_key, field_key, field_operand.
  by destruct (truthy (url c)).
Qed.

(** A record whose key is already in [seen] leaves the loop as it was. *)
Lemma dedupe_skip rnd c k l : ∀ i seen acc,
  field_key c = Some k → k ∈ seen →
  dedupe rnd i seen acc (c :: l) = dedupe rnd i seen acc l.
Proof.
  intros i seen acc Hk Hseen. simpl.
  destruct (field_key_operand rnd i c k Hk) as [Hs Hi].
  destruct (key_operand rnd i c) as [v i']. simpl in *. subst i'.
  rewrite Hs. simpl. by rewrite decide_True.
Qed.

Lemma dedupe_later_duplicate rnd c k l2 l3 : ∀ i seen acc,
  field_key c = Some k → k ∈ seen →
  dedupe rnd i seen acc (l2 ++ c :: l3) = dedupe rnd i seen acc (l2 ++ l3).
Proof.
  induction l2 as [|x l2 IH]; intros i seen acc Hk Hseen.
  { by apply (dedupe_skip rnd c k). }
  simpl. destruct (key_operand rnd i x) as [v i'].
  destruct (toString v) as [key|e]; simpl; [|done].
  case_decide; apply IH; set_solver.
Qed.

(** Of two records with the same field key the later one is dropped: the
    loop gives what it gives without it. *)
Lemma dedupe_duplicate rnd c1 c2 k l1 l2 l3 : ∀ i seen acc,
  field_key c1 = Some k → field_key c2 = Some k →
  dedupe rnd i seen acc (l1 ++ c1 :: l2 ++ c2 :: l3) =
  dedupe rnd i seen acc (l1 ++ c1 :: l2 ++ l3).
Proof.
  induction l1 as [|x l1 IH]; intros i seen acc H1 H2.
  - simpl. destruct (field_key_operand rnd i c1 k H1) as [Hs Hi].
    destruct (key_operand rnd i c1) as [v i']. simpl in *. subst i'.
    rewrite Hs. simpl.
    case_decide; apply (dedupe_later_duplicate rnd c2 k); set_solver.
  - simpl. destruct (key_operand rnd i x) as [v i'].
    destruct (toString v) as [key|e]; simpl; [|done].
    case_decide; by apply IH.
Qed.

(** The field keys of the records kept are pairwise different, and none of
    them was in [seen]. *)
Lemma dedupe_field_keys rnd cs : ∀ i seen out,
  dedupe rnd i seen [] cs = Normal out →
  NoDup (omap field_key out) ∧ ∀ k, k ∈ omap field_key out → k ∉ seen.
Proof.
  induction cs as [|c cs IH]; intros i seen out H.
  { injection H as <-. split; [constructor | by intros k Hk%elem_of_nil]. }
  apply dedupe_cons_inv in H as (key & Hkey & [[_ H] | (Hnew & r & -> & H)]).
  { by apply IH in H. }
  apply IH in H as [Hnd Hout]. simpl.
  destruct (field_key c) as [k|] eqn:Hk.
  - destruct (field_key_operand rnd i c k Hk) as [Hs _].
    assert (key = k) as -> by congruence.
    split.
    + constructor; [|done]. intros Hin%Hout. set_solver.
    + intros k' [->|Hin%Hout]%elem_of_cons; set_solver.
  - split; [done|]. intros k' Hin%Hout. set_solver.
Qed.

Section url_filter.
Variable rnd : nat → string.
Variable u : string.

Local Abbreviation has_url := (λ c : course, url_key c = Some u).

(** Of the records whose url is [u] the loop keeps at most the first. *)
Lemma dedupe_url_filter cs : ∀ i seen out,
  dedupe rnd i seen [] cs = Normal out →
  (u ∈ seen → filter has_url out = []) ∧
  (u ∉ seen →
   filter has_url out = [] ∨ filter has_url out = take 1 (filter has_url cs)).
Proof.
  induction cs as [|c cs IH]; intros i seen out H.
  { injection H as <-. split; auto. }
  apply dedupe_cons_inv in H as (key & Hkey & [[Hold H] | (Hnew & r & -> & H)]).
  - apply IH in H as [Hin Hnotin].
    split; [done|]. intros Hu.
    destruct (decide (url_key c = Some u)) as [Hc|Hc].
    + apply url_key_field_key in Hc.
      destruct (field_key_operand rnd i c u Hc) as [Hs _].
      assert (key = u) by congruence. by subst.
    + rewrite (filter_cons_False has_url) by done. auto.
  - apply IH in H as [Hin Hnotin].
    destruct (decide (url_key c = Some u)) as [Hc|Hc].
    + pose proof (url_key_field_key _ _ Hc) as Hf.
      destruct (field_key_operand rnd i c u Hf) as [Hs _].
      assert (key = u) as -> by congruence.
      split; [done|]. intros _. right.
      rewrite !(filter_cons_True has_url) by done.
      rewrite Hin by set_solver. done.
    + rewrite !(filter_cons_False has_url) by done.
      split.
      * intros Hu. apply Hin. set_solver.
      * intros Hu. destruct (decide (key = u)) as [->|Hne].
        -- left. apply Hin. set_solver.
        -- apply Hnotin. set_solver.
Qed.

(** The first record whose url is [u] is kept when [u] is the key of no
    record before it: here, when [u] is neither the title key of a record
    nor a draw. *)
Lemma dedupe_url_first cs : ∀ i seen out,
  (∀ n, rnd n ≠ u) →
  (∀ c, c ∈ cs → url_key c ≠ Some u → field_key c ≠ Some u) →
  u ∉ seen →
  dedupe rnd i seen [] cs = Normal out →
  filter has_url out = take 1 (filter has_url cs).
Proof.
  induction cs as [|c cs IH]; intros i seen out Hrnd Hcs Hu H.
  { by injection H as <-. }
  assert (∀ c', c' ∈ cs → url_key c' ≠ Some u → field_key c' ≠ Some u) as Hcs'
    by (intros c' Hc'; apply Hcs; by constructor).
  apply dedupe_cons_inv in H as (key & Hkey & Hcases).
  destruct (decide (url_key c = Some u)) as [Hc|Hc].
  - pose proof (url_key_field_key _ _ Hc) as Hf.
    destruct (field_key_operand rnd i c u Hf) as [Hs _].
    assert (key = u) as -> by congruence.
    destruct Hcases as [[Hold _] | (_ & r & -> & H)]; [done|].
    apply dedupe_url_filter in H as [Hin _].
    rewrite !(filter_cons_True has_url) by done.
      rewrite Hin by set_solver. done.
  - assert (key ≠ u) as Hne.
    { intros ->. apply record_key_cases in Hkey as [[Hf _] | (_ & Hd & _)].
      - by apply (Hcs c (list_elem_of_here _ _) Hc).
      - by apply (Hrnd i). }
    rewrite (filter_cons_False has_url) by done.
    destruct Hcases as [[_ H] | (_ & r & -> & H)].
    + by apply IH in H.
    + rewrite (filter_cons_False has_url) by done.
      apply IH in H; [done..|set_solver].
Qed.
End url_filter.

(** ** Deduplication *)

Lemma dedupe_first_with_url rnd u c l2 l1 : ∀ i seen out,
  dedupe rnd i seen [] (l1 ++ c :: l2) = Normal out →
  url_key c = Some u →
  (∀ c', c' ∈ l1 → url_key c' ≠ Some u) →
  ∃ keys, loop_keys rnd i l1 = Normal keys ∧
    (u ∈ seen ∨ u ∈ keys → filter (λ c, url_key c = Some u) out = []) ∧
    (u ∉ seen → u ∉ keys → filter (λ c, url_key c = Some u) out = [c]).
Proof.
  induction l1 as [|x l1 IH]; intros i seen out H Hc Hl1.
  - exists []. split; [done|]. simpl in H.
    pose proof (url_key_field_key _ _ Hc) as Hf.
    apply dedupe_cons_inv in H as (key & Hkey & Hcases).
    destruct (field_key_operand rnd i c u Hf) as [Hs _].
    assert (key = u) as -> by congruence.
    destruct Hcases as [[Hold H] | (Hnew & r & -> & H)].
    + apply (dedupe_url_filter rnd u) in H as [Hin _].
      split; [intros _; by apply Hin | done].
    + apply (dedupe_url_filter rnd u) in H as [Hin _].
      split; [intros [?|?%elem_of_nil]; done|]. intros _ _.
      rewrite (filter_cons_True (λ c, url_key c = Some u)) by done.
      rewrite Hin by set_solver. done.
  - assert (url_key x ≠ Some u) as Hx by (apply Hl1; constructor).
    assert (∀ c', c' ∈ l1 → url_key c' ≠ Some u) as Hl1'
      by (intros c' Hc'; apply Hl1; by constructor).
    rewrite <- app_comm_cons in H.
    apply dedupe_cons_inv in H as (key & Hkey & Hcases).
    simpl. destruct (key_operand rnd i x) as [v i'] eqn:Hop. simpl in *.
    rewrite Hkey. simpl.
    destruct Hcases as [[Hold H] | (Hnew & r & -> & H)].
    + destruct (IH _ _ _ H Hc Hl1') as (keys & -> & Hin & Hnotin). simpl.
      exists (key :: keys). split; [done|]. split.
      * intros [Hu | [->|Hu]%elem_of_cons]; apply Hin; auto.
      * intros Hu Hk. apply Hnotin; [done|]. set_solver.
    + destruct (IH _ _ _ H Hc Hl1') as (keys & -> & Hin & Hnotin). simpl.
      exists (key :: keys). split; [done|].
      rewrite (filter_cons_False (λ c, url_key c = Some u)) by done. split.
      * intros [Hu | [->|Hu]%elem_of_cons]; apply Hin; set_solver.
      * intros Hu Hk. apply Hnotin; set_solver.
Qed.

(** C2, as the code has it.  Whenever the dedup loop returns, no two
    records of the output share a key that comes from a field ([url] when
    truthy, else [title] when truthy); for every url value the output holds
    at most one record with that url, and none but the first such record of
    the input in encounter order: later ones are dropped.  That first
    record is in the output exactly when the loop gave its key to no earlier
    record (an earlier record without url whose title is that url, or an
    earlier draw that prints as it); otherwise no record with that url is
    in the output. *)
Theorem dedupe_keys_unique (rnd : nat → string) (cs out : list course) :
  dedupe rnd 0 ∅ [] cs = Normal out →
  NoDup (omap field_key out) ∧
  (∀ u : string,
     filter (λ c, url_key c = Some u) out = [] ∨
     filter (λ c, url_key c = Some u) out =
       take 1 (filter (λ c, url_key c = Some u) cs)) ∧
  (∀ (u : string) (l1 l2 : list course) (c : course),
     cs = l1 ++ c :: l2 → url_key c = Some u →
     (∀ c', c' ∈ l1 → url_key c' ≠ Some u) →
     ∃ keys, loop_keys rnd 0 l1 = Normal keys ∧
       (u ∈ keys → filter (λ c, url_key c = Some u) out = []) ∧
       (u ∉ keys → filter (λ c, url_key c = Some u) out = [c])).
Proof.
  intros H. split; [by apply (dedupe_field_keys rnd cs 0 ∅)|]. split.
  - intros u. apply (dedupe_url_filter rnd u cs 0 ∅ out H). set_solver.
  - intros u l1 l2 c -> Hc Hl1.
    destruct (dedupe_first_with_url rnd u c l2 l1 0 ∅ out H Hc Hl1)
      as (keys & Hkeys & Hin & Hnotin).
    exists keys. split; [done|]. split; [by auto|].
    intros Hk. apply Hnotin; [set_solver | done].
Qed.

Lemma dedupe_keys_unique_witness :
  NoDup (omap field_key
           [entry (JStr "Algorithms") (JStr "https://a.example/algo") "Coursera";
            entry (JStr "Graphs") JNull "Class Central"]) ∧
  (∀ u : string,
     filter (λ c, url_key c = Some u)
       [entry (JStr "Algorithms") (JStr "https://a.example/algo") "Coursera";
        entry (JStr "Graphs") JNull "Class Central"] = [] ∨
     filter (λ c, url_key c = Some u)
       [entry (JStr "Algorithms") (JStr "https://a.example/algo") "Coursera";
        entry (JStr "Graphs") JNull "Class Central"] =
       take 1 (filter (λ c, url_key c = Some u) catalog_courses)) ∧
  (∀ (u : string) (l1 l2 : list course) (c : course),
     catalog_courses = l1 ++ c :: l2 → url_key c = Some u →
     (∀ c', c' ∈ l1 → url_key c' ≠ Some u) →
     ∃ keys, loop_keys two_draws 0 l1 = Normal keys ∧
       (u ∈ keys →
        filter (λ c, url_key c = Some u)
          [entry (JStr "Algorithms") (JStr "https://a.example/algo") "Coursera";
           entry (JStr "Graphs") JNull "Class Central"] = []) ∧
       (u ∉ keys →
        filter (λ c, url_key c = Some u)
          [entry (JStr "Algorithms") (JStr "https://a.example/algo") "Coursera";
           entry (JStr "Graphs") JNull "Class Central"] = [c])).
Proof.
  apply (dedupe_keys_unique two_draws catalog_courses). vm_compute. reflexivity.
Defined.

(** C2, as stated, fails: the title of a record without url is the url of
    the two records after it; the loop keeps that first record only, and of
    the records with that url not even the first is in the output. *)
Lemma first_url_record_shadowed :
  filter (λ c, url_key c = Some "https://a.example/algo") shadowed_courses =
    [entry (JStr "Algorithms") (JStr "https://a.example/algo") "Coursera";
     entry (JStr "Algorithms, again") (JStr "https://a.example/algo") "Udemy"] ∧
  dedupe two_draws 0 ∅ [] shadowed_courses =
    Normal [entry (JStr "https://a.example/algo") JNull "Class Central"] ∧
  entry (JStr "Algorithms") (JStr "https://a.example/algo") "Coursera"
    ∉ [entry (JStr "https://a.example/algo") JNull "Class Central"].
Proof.
  split; [by vm_compute|]. split; [by vm_compute|].
  intros [H|H%elem_of_nil]%elem_of_cons; [discriminate H | done].
Qed.

Lemma filter_key_absent (k : string) (l : list course) :
  k ∉ omap field_key l → filter (λ c, field_key c = Some k) l = [].
Proof.
  induction l as [|c l IH]; [done|]. simpl. intros Hk.
  destruct (decide (field_key c = Some k)) as [Hc|Hc].
  - rewrite Hc in Hk. set_solver.
  - rewrite (filter_cons_False (λ c, field_key c = Some k)) by done.
    apply IH. destruct (field_key c); set_solver.
Qed.

Lemma filter_key_NoDup (k : string) (l : list course) :
  NoDup (omap field_key l) →
  length (filter (λ c, field_key c = Some k) l) ≤ 1.
Proof.
  induction l as [|c l IH]; [simpl; lia|]. simpl. intros Hnd.
  destruct (decide (field_key c = Some k)) as [Hc|Hc].
  - rewrite Hc in Hnd. apply NoDup_cons in Hnd as [Hk _].
    rewrite (filter_cons_True (λ c, field_key c = Some k)) by done.
    rewrite (filter_key_absent k l Hk). simpl. lia.
  - rewrite (filter_cons_False (λ c, field_key c = Some k)) by done.
    apply IH. destruct (field_key c); [by apply NoDup_cons in Hnd as [_ ?]|done].
Qed.

(** C10.  The keys read from [url] and from [title] live in one set: of two
    records with the same key, whichever fields the two keys were read
    from, the later one is dropped, the loop giving what it gives without
    it; and the output holds at most one record with that key. *)
Theorem shared_key_namespace (rnd : nat → string) (l1 l2 l3 : list course)
    (c1 c2 : course) (k : string) :
  field_key c1 = Some k → field_key c2 = Some k →
  dedupe rnd 0 ∅ [] (l1 ++ c1 :: l2 ++ c2 :: l3) =
  dedupe rnd 0 ∅ [] (l1 ++ c1 :: l2 ++ l3) ∧
  ∀ out, dedupe rnd 0 ∅ [] (l1 ++ c1 :: l2 ++ c2 :: l3) = Normal out →
         length (filter (λ c, field_key c = Some k) out) ≤ 1.
Proof.
  intros H1 H2. split.
  - by apply (dedupe_duplicate rnd c1 c2 k).
  - intros out Hout. apply filter_key_NoDup.
    by eapply proj1, (dedupe_field_keys rnd _ 0 ∅ out).
Qed.

(** A record without url whose title is the url of an earlier record *)
Lemma shared_key_namespace_witness :
  dedupe two_draws 0 ∅ []
    ([] ++ entry (JStr "Algorithms") (JStr "https://a.example/algo") "Coursera"
        :: [entry (JStr "Graphs") JNull "Class Central"]
        ++ entry (JStr "https://a.example/algo") JNull "Class Central" :: []) =
  dedupe two_draws 0 ∅ []
    ([] ++ entry (JStr "Algorithms") (JStr "https://a.example/algo") "Coursera"
        :: [entry (JStr "Graphs") JNull "Class Central"] ++ []) ∧
  ∀ out,
    dedupe two_draws 0 ∅ []
      ([] ++ entry (JStr "Algorithms") (JStr "https://a.example/algo") "Coursera"
          :: [entry (JStr "Graphs") JNull "Class Central"]
          ++ entry (JStr "https://a.example/algo") JNull "Class Central" :: [])
    = Normal out →
    length (filter (λ c, field_key c = Some "https://a.example/algo") out) ≤ 1.
Proof.
  apply (shared_key_namespace two_draws [] _ [] _ _ "https://a.example/algo");
    reflexivity.
Defined.

Example title_equal_to_earlier_url :
  dedupe two_draws 0 ∅ []
    [entry (JStr "Algorithms") (JStr "https://a.example/algo") "Coursera";
     entry (JStr "https://a.example/algo") JNull "Class Central"] =
  Normal [entry (JStr "Algorithms") (JStr "https://a.example/algo") "Coursera"].
Proof. vm_compute. reflexivity. Qed.

(** C9, as the code has it.  A record whose [url] is falsy (the empty
    string, null, undefined) and whose [title] is truthy has its title as
    dedup key, and no draw is made for it; of two such records with the same
    title the later one is dropped, and the two alone come out as the first
    one. *)
Theorem falsy_url_falls_back_to_title (rnd : nat → string) (c : course)
    (k : string) :
  truthy (url c) = false → truthy (title c) = true →
  toString (title c) = Normal k →
  (∀ i, key_operand rnd i c = (title c, i)) ∧
  field_key c = Some k ∧
  ∀ c', truthy (url c') = false → title c' = title c →
    (∀ l1 l2 l3,
       dedupe rnd 0 ∅ [] (l1 ++ c :: l2 ++ c' :: l3) =
       dedupe rnd 0 ∅ [] (l1 ++ c :: l2 ++ l3)) ∧
    dedupe rnd 0 ∅ [] [c; c'] = Normal [c].
Proof.
  intros Hu Ht Hk.
  assert (∀ x, truthy (url x) = false → title x = title c → field_key x = Some k)
    as Hkey.
  { intros x Hx Hxt. unfold field_key, field_operand, printed.
    rewrite Hx, Hxt, Ht. simpl. by rewrite Hk. }
  split; [intros i; unfold key_operand; by rewrite Hu, Ht|].
  split; [by apply Hkey|].
  intros c' Hu' Ht'.
  assert (∀ l1 l2 l3,
       dedupe rnd 0 ∅ [] (l1 ++ c :: l2 ++ c' :: l3) =
       dedupe rnd 0 ∅ [] (l1 ++ c :: l2 ++ l3)) as Hdrop
    by (intros; apply (dedupe_duplicate rnd c c' k); auto).
  split; [done|].
  change [c; c'] with ([] ++ c :: [] ++ c' :: []).
  rewrite (Hdrop [] [] []). simpl.
  destruct (field_key_operand rnd 0 c k (Hkey c Hu eq_refl)) as [Hs Hi].
  destruct (key_operand rnd 0 c) as [v i']. simpl in *.
  rewrite Hs. simpl. by rewrite decide_False by set_solver.
Qed.

Lemma falsy_url_falls_back_to_title_witness :
  (∀ i, key_operand two_draws i (entry (JStr "Graphs") (JStr "") "Class Central")
        = (JStr "Graphs", i)) ∧
  field_key (entry (JStr "Graphs") (JStr "") "Class Central") = Some "Graphs" ∧
  ∀ c', truthy (url c') = false →
    title c' = title (entry (JStr "Graphs") (JStr "") "Class Central") →
    (∀ l1 l2 l3,
       dedupe two_draws 0 ∅ []
         (l1 ++ entry (JStr "Graphs") (JStr "") "Class Central" :: l2 ++ c' :: l3) =
       dedupe two_draws 0 ∅ []
         (l1 ++ entry (JStr "Graphs") (JStr "") "Class Central" :: l2 ++ l3)) ∧
    dedupe two_draws 0 ∅ [] [entry (JStr "Graphs") (JStr "") "Class Central"; c'] =
    Normal [entry (JStr "Graphs") (JStr "") "Class Central"].
Proof.
  apply (falsy_url_falls_back_to_title two_draws
           (entry (JStr "Graphs") (JStr "") "Class Central") "Graphs");
    reflexivity.
Defined.

(** C9, as stated, fails: two feed items with an empty link and the same,
    empty, title are keyed by draws, not by their title, and both come
    out. *)
Lemma empty_title_is_no_key :
  let a := blank_item "first" in
  let b := blank_item "second" in
  url a = JStr "" ∧ url b = JStr "" ∧ title a = title b ∧
  key_operand two_draws 0 a = (JNum "0.25", 1) ∧
  toString (key_operand two_draws 0 a).1 ≠ toString (title a) ∧
  dedupe two_draws 0 ∅ [] [a; b] = Normal [a; b] ∧
  dedupe two_draws 0 ∅ [] [a; b] ≠ Normal [a].
Proof. vm_compute. repeat split; discriminate. Qed.

(** ** Records without url and title *)

Lemma draws_made_cons c cs :
  draws_made (c :: cs) =
  if keyless c then S (draws_made cs) else draws_made cs.
Proof.
  unfold draws_made. destruct (keyless c) eqn:Hc.
  - by rewrite (filter_cons_True (λ c, keyless c = true)) by done.
  - rewrite (filter_cons_False (λ c, keyless c = true)); [done|]. congruence.
Qed.

Lemma dedupe_keyless rnd cs : ∀ i seen out,
  (∀ n m, n < i + draws_made cs → m < i + draws_made cs →
          rnd n = rnd m → n = m) →
  (∀ c n, c ∈ cs → n < i + draws_made cs → field_key c ≠ Some (rnd n)) →
  (∀ j, i ≤ j → j < i + draws_made cs → rnd j ∉ seen) →
  dedupe rnd i seen [] cs = Normal out →
  filter (λ c, keyless c = true) out = filter (λ c, keyless c = true) cs.
Proof.
  induction cs as [|c cs IH]; intros i seen out Hinj Hcs Hseen H.
  { by injection H as <-. }
  rewrite draws_made_cons in Hinj, Hcs, Hseen.
  apply dedupe_cons_inv in H as (key & Hkey & Hcases).
  apply record_key_cases in Hkey as [[Hf Hi] | (Hc & -> & Hi)]; rewrite Hi in *.
  - assert (keyless c = false) as Hc.
    { apply not_true_iff_false. rewrite keyless_field_operand.
      unfold field_key in Hf. by destruct (field_operand c). }
    rewrite Hc in Hinj, Hcs, Hseen.
    assert (∀ c' n, c' ∈ cs → n < i + draws_made cs → field_key c' ≠ Some (rnd n))
      as Hcs' by (intros c' n Hc'; apply Hcs; by constructor).
    assert (∀ j, i ≤ j → j < i + draws_made cs → rnd j ∉ {[key]} ∪ seen)
      as Hseen'.
    { intros j Hj Hm [Heq%elem_of_singleton|Hin]%elem_of_union.
      - apply (Hcs c j (list_elem_of_here _ _) Hm). congruence.
      - by apply (Hseen j). }
    rewrite (filter_cons_False (λ c, keyless c = true)) by congruence.
    destruct Hcases as [[_ H] | (_ & r & -> & H)].
    + by apply (IH i seen).
    + rewrite (filter_cons_False (λ c, keyless c = true)) by congruence.
      by apply (IH i ({[key]} ∪ seen)).
  - rewrite Hc in Hinj, Hcs, Hseen.
    replace (i + S (draws_made cs)) with (S i + draws_made cs) in * by lia.
    destruct Hcases as [[Hold _] | (_ & r & -> & H)].
    { apply (Hseen i) in Hold; [done | lia | lia]. }
    rewrite !(filter_cons_True (λ c, keyless c = true)) by done. f_equal.
    apply (IH (S i) ({[rnd i]} ∪ seen)); [done| | |done].
    + intros c' n Hc'. apply Hcs. by constructor.
    + intros j Hj Hm [Heq%elem_of_singleton|Hin]%elem_of_union.
      * apply Hinj in Heq; lia.
      * apply (Hseen j); [lia | lia | done].
Qed.

(** C8, as the code has it.  The loop makes one draw for each record that
    has neither a (truthy) url nor a (truthy) title.  When the draws it
    makes print as pairwise different strings, none of which is the url or
    title key of a record of the input, every such record is kept: the
    output holds them all, in their order, and so both records of any pair
    of them. *)
Theorem keyless_records_kept (rnd : nat → string) (cs out : list course) :
  (∀ n m, n < draws_made cs → m < draws_made cs → rnd n = rnd m → n = m) →
  (∀ c n, c ∈ cs → n < draws_made cs → field_key c ≠ Some (rnd n)) →
  dedupe rnd 0 ∅ [] cs = Normal out →
  filter (λ c, keyless c = true) out = filter (λ c, keyless c = true) cs ∧
  ∀ a b, a ∈ cs → b ∈ cs → keyless a = true → keyless b = true →
         a ∈ out ∧ b ∈ out.
Proof.
  intros Hinj Hcs H.
  assert (filter (λ c, keyless c = true) out = filter (λ c, keyless c = true) cs)
    as Hkept by (apply (dedupe_keyless rnd cs 0 ∅); [done..|set_solver|done]).
  split; [done|].
  assert (∀ a, a ∈ cs → keyless a = true → a ∈ out) as Hin.
  { intros a Ha Hk.
    assert (a ∈ filter (λ c, keyless c = true) out) as Hf
      by (rewrite Hkept; by apply list_elem_of_filter).
    by apply list_elem_of_filter in Hf as [_ ?]. }
  auto.
Qed.

Lemma two_draws_differ n m : n < 2 → m < 2 → two_draws n = two_draws m → n = m.
Proof.
  destruct n as [|[|n]], m as [|[|m]]; intros Hn Hm H; try lia; try done;
    discriminate H.
Qed.

Lemma keyless_courses_keys c n :
  c ∈ keyless_courses → n < 2 → field_key c ≠ Some (two_draws n).
Proof.
  unfold keyless_courses. intros Hc Hn.
  destruct n as [|[|n]]; [| |lia];
    repeat (apply elem_of_cons in Hc as [->|Hc]; [by vm_compute|]);
    by apply elem_of_nil in Hc.
Qed.

Lemma keyless_records_kept_witness :
  filter (λ c, keyless c = true)
    [untitled "first";
     entry (JStr "Graphs") (JStr "https://a.example/graphs") "Class Central";
     untitled "second"] =
    filter (λ c, keyless c = true) keyless_courses ∧
  ∀ a b, a ∈ keyless_courses → b ∈ keyless_courses →
         keyless a = true → keyless b = true →
         a ∈ [untitled "first";
              entry (JStr "Graphs") (JStr "https://a.example/graphs") "Class Central";
              untitled "second"] ∧
         b ∈ [untitled "first";
              entry (JStr "Graphs") (JStr "https://a.example/graphs") "Class Central";
              untitled "second"].
Proof.
  apply (keyless_records_kept two_draws keyless_courses).
  - exact two_draws_differ.
  - exact keyless_courses_keys.
  - vm_compute. reflexivity.
Defined.

(** C8, as stated, fails: when two draws print alike, the second of two
    records without url and title is dropped. *)
Lemma keyless_records_collide :
  let a := untitled "first" in
  let b := untitled "second" in
  keyless a = true ∧ keyless b = true ∧
  dedupe (λ _, "0.5") 0 ∅ [] [a; b] = Normal [a] ∧
  b ∉ [a].
Proof.
  vm_compute. repeat split.
  intros [H|H%elem_of_nil]%elem_of_cons; [discriminate H | done].
Qed.

(** * Further properties of the code *)

(** ** [stripTags] *)

Lemma strip_no_gt s : JsString.has_char ">" s = false → strip false s = s.
Proof.
  induction s as [|c s IH]; [done|]. simpl.
  intros [Hc Hs]%orb_false_iff. rewrite Hs, andb_false_r. by rewrite IH.
Qed.

Lemma no_tag_strip s : ∀ in_tag, no_tag (strip in_tag s) = true.
Proof.
  induction s as [|c s IH]; intros in_tag; [by destruct in_tag|]. simpl.
  destruct in_tag.
  { destruct (Ascii.eqb c ">"); apply IH. }
  destruct (Ascii.eqb c "<") eqn:Hc; simpl.
  - destruct (JsString.has_char ">" s) eqn:Hs; [apply IH|]. simpl.
    rewrite Hc, (strip_no_gt s Hs), Hs. simpl.
    rewrite <- (strip_no_gt s Hs). apply IH.
  - by rewrite Hc, IH.
Qed.

Lemma strip_no_tag s : no_tag s = true → strip false s = s.
Proof.
  induction s as [|c s IH]; [done|]. simpl.
  intros [Hc Hs]%andb_true_iff. apply negb_true_iff in Hc.
  by rewrite Hc, IH.
Qed.

Lemma length_strip s : ∀ in_tag,
  String.length (strip in_tag s) ≤ String.length s.
Proof.
  induction s as [|c s IH]; intros in_tag; [by destruct in_tag|]. simpl.
  destruct in_tag.
  { destruct (Ascii.eqb c ">"); etrans; [apply IH | lia | apply IH | lia]. }
  destruct (Ascii.eqb c "<" && JsString.has_char ">" s); simpl.
  - etrans; [apply IH | lia].
  - specialize (IH false). lia.
Qed.

(** X1.  [stripTags] leaves no tag: in its result no ["<"] has a [">"]
    after it.  Stripping again changes nothing, text that holds no tag is
    returned as it is, and the result is never longer than the text. *)
Theorem stripTags_removes_tags (s : string) :
  no_tag (stripTags s) = true ∧
  stripTags (stripTags s) = stripTags s ∧
  (no_tag s = true → stripTags s = s) ∧
  String.length (stripTags s) ≤ String.length s.
Proof.
  unfold stripTags. split; [apply no_tag_strip|].
  split; [apply strip_no_tag, no_tag_strip|].
  split; [apply strip_no_tag | apply length_strip].
Qed.

Lemma stripTags_removes_tags_witness :
  stripTags "2 < 3 and plain" = "2 < 3 and plain".
Proof.
  apply (proj1 (proj2 (proj2 (stripTags_removes_tags "2 < 3 and plain")))).
  reflexivity.
Defined.

(** ** [trim] and the query *)

Lemma trimStart_starts s : starts_with_space (JsString.trimStart s) = false.
Proof.
  induction s as [|c s IH]; [done|]. simpl.
  destruct (JsString.is_space c) eqn:Hc; [done|]. simpl. done.
Qed.

Lemma trimEnd_ends s : ends_with_space (JsString.trimEnd s) = false.
Proof.
  induction s as [|c s IH]; [done|]. simpl.
  destruct (JsString.trimEnd s) as [|d t] eqn:Ht.
  - simpl. destruct (JsString.is_space c) eqn:Hc; simpl; [done|]. done.
  - rewrite andb_false_r. done.
Qed.

Lemma trimEnd_starts s :
  starts_with_space s = false → starts_with_space (JsString.trimEnd s) = false.
Proof.
  destruct s as [|c s]; [done|]. simpl. intros H. rewrite H. simpl. exact H.
Qed.

Lemma trimStart_id s : starts_with_space s = false → JsString.trimStart s = s.
Proof. destruct s as [|c s]; [done|]. simpl. by intros ->. Qed.

Lemma trimEnd_id s : ends_with_space s = false → JsString.trimEnd s = s.
Proof.
  induction s as [|c s IH]; [done|]. intros H. simpl.
  destruct s as [|d t].
  - simpl in *. by rewrite H.
  - rewrite IH by done. by rewrite andb_false_r.
Qed.

Lemma trim_trimmed s :
  starts_with_space (JsString.trim s) = false ∧
  ends_with_space (JsString.trim s) = false.
Proof.
  unfold JsString.trim. split.
  - apply trimEnd_starts, trimStart_starts.
  - apply trimEnd_ends.
Qed.

Lemma trim_id s :
  starts_with_space s = false → ends_with_space s = false →
  JsString.trim s = s.
Proof.
  intros Hs He. unfold JsString.trim. by rewrite trimStart_id, trimEnd_id.
Qed.

(** X2.  The query the handler works with has no white space at its start
    or at its end, whatever [req.query.q] holds, so trimming it again
    changes nothing; a missing parameter, an empty one and one made of
    blanks all give the empty query. *)
Theorem read_query_trimmed (p : query_param) :
  starts_with_space (read_query p) = false ∧
  ends_with_space (read_query p) = false ∧
  JsString.trim (read_query p) = read_query p ∧
  read_query QMissing = "" ∧
  read_query (QString "") = "" ∧
  (∀ s, JsString.trimStart s = "" → read_query (QString s) = "").
Proof.
  destruct (trim_trimmed
    match p with
    | QMissing => ""
    | QString s => if String.eqb s "" then "" else s
    | QArray ss => JsString.join "," ss
    end) as [Hs He].
  split; [exact Hs|]. split; [exact He|].
  split; [by apply trim_id|].
  split; [done|]. split; [done|].
  intros s Hblank. unfold read_query, JsString.trim.
  destruct (String.eqb s ""); [done|]. by rewrite Hblank.
Qed.

Lemma read_query_trimmed_witness : read_query (QString "  	 ") = "".
Proof.
  apply (proj2 (proj2 (proj2 (proj2 (proj2 (read_query_trimmed QMissing)))))).
  reflexivity.
Defined.

(** ** The feed adapter as a filter *)

Lemma feed_items_fuel n m rest :
  String.length rest < n → String.length rest < m →
  feed_items n rest = feed_items m rest.
Proof.
  revert m rest. induction n as [|n IH]; intros [|m] rest Hn Hm; try lia.
  simpl. destruct (itemRe_exec rest) as [[[[m1 m2] m3] rest']|] eqn:E; [|done].
  apply itemRe_exec_consumes in E. f_equal. apply IH; lia.
Qed.

Lemma feed_items_S fuel rest :
  feed_items (S fuel) rest =
  match itemRe_exec rest with
  | None => []
  | Some (m1, m2, m3, rest') =>
      gfg_item (JsString.trim (stripTags m1)) (JsString.trim (stripTags m2))
        (JsString.trim (stripTags m3))
      :: feed_items fuel rest'
  end.
Proof. reflexivity. Qed.

Lemma gfg_keeps_item query t l d :
  gfg_keeps query (gfg_item t l d) = negb (gfg_skips query t d).
Proof. reflexivity. Qed.

Lemma gfg_loop_take fuel query : ∀ rest items,
  length items < 20 →
  gfg_loop fuel query rest items =
  take 20 (items ++ List.filter (gfg_keeps query) (feed_items fuel rest)).
Proof.
  induction fuel as [|fuel IH]; intros rest items Hlen.
  { rewrite gfg_loop_0. cbn [feed_items List.filter].
    rewrite app_nil_r, take_ge by lia. done. }
  rewrite gfg_loop_S, feed_items_S.
  destruct (itemRe_exec rest) as [[[[m1 m2] m3] rest']|].
  2:{ cbn [List.filter]. rewrite app_nil_r, take_ge by lia. done. }
  cbv zeta. cbn [List.filter]. rewrite gfg_keeps_item.
  destruct (gfg_skips query _ _); cbn [negb]; [by apply IH|].
  set (item := gfg_item _ _ _).
  set (kept := List.filter _ _).
  replace (items ++ item :: kept) with ((items ++ [item]) ++ kept)
    by (by rewrite <- app_assoc).
  assert (length (items ++ [item]) = S (length items)) as Hlen'
    by (rewrite length_app; simpl; lia).
  destruct (Nat.leb 20 (length (items ++ [item]))) eqn:Hfull.
  - apply Nat.leb_le in Hfull. rewrite take_app_length'; [done | lia].
  - apply Nat.leb_gt in Hfull. by apply IH.
Qed.

Lemma filter_feed_items_empty_query fuel : ∀ rest,
  List.filter (gfg_keeps "") (feed_items fuel rest) = feed_items fuel rest.
Proof.
  induction fuel as [|fuel IH]; intros rest; [done|]. rewrite feed_items_S.
  destruct (itemRe_exec rest) as [[[[m1 m2] m3] rest']|]; [|done].
  cbn [List.filter]. rewrite gfg_keeps_item. simpl. by rewrite IH.
Qed.

(** X3.  On a response that is [ok] and whose text can be read, the feed
    adapter returns the first 20 of the feed's items that pass the query
    filter, in the order of the feed; with the empty query nothing is
    filtered and it returns the first 20 items. *)
Theorem getGeeksForGeeks_take_filter (query : string) (r : http_response)
    (t : string) :
  ok r = true → text r = Normal t →
  getGeeksForGeeks query (FetchResolves r) =
    Normal (take 20 (List.filter (gfg_keeps query)
                       (feed_items (S (String.length t)) t))) ∧
  getGeeksForGeeks "" (FetchResolves r) =
    Normal (take 20 (feed_items (S (String.length t)) t)).
Proof.
  intros Hok Ht. unfold getGeeksForGeeks, getGeeksForGeeks_try. simpl.
  rewrite Hok, Ht. simpl.
  rewrite !gfg_loop_take by (simpl; lia). rewrite !app_nil_l.
  by rewrite filter_feed_items_empty_query.
Qed.

Lemma getGeeksForGeeks_take_filter_witness :
  getGeeksForGeeks "python" (resolves_text sample_feed) =
    Normal (take 20 (List.filter (gfg_keeps "python")
      (feed_items (S (String.length sample_feed)) sample_feed))) ∧
  getGeeksForGeeks "" (resolves_text sample_feed) =
    Normal (take 20 (feed_items (S (String.length sample_feed)) sample_feed)).
Proof.
  apply (getGeeksForGeeks_take_filter "python" _ sample_feed); reflexivity.
Defined.

(** ** What the feed adapter stores *)

Lemma no_tag_trimStart s : no_tag s = true → no_tag (JsString.trimStart s) = true.
Proof.
  induction s as [|c s IH]; [done|]. intros H. simpl.
  destruct (JsString.is_space c); [|done].
  apply IH. simpl in H. by apply andb_true_iff in H as [_ ?].
Qed.

Lemma has_char_trimEnd a s :
  JsString.has_char a (JsString.trimEnd s) = true → JsString.has_char a s = true.
Proof.
  induction s as [|c s IH]; [done|]. simpl.
  destruct (JsString.is_space c && String.eqb (JsString.trimEnd s) ""); [done|].
  simpl. intros [H|H]%orb_true_iff; apply orb_true_iff; auto.
Qed.

Lemma no_tag_trimEnd s : no_tag s = true → no_tag (JsString.trimEnd s) = true.
Proof.
  induction s as [|c s IH]; [done|]. simpl.
  intros [Hc Hs]%andb_true_iff.
  destruct (JsString.is_space c && String.eqb (JsString.trimEnd s) ""); [done|].
  simpl. rewrite (IH Hs), andb_true_r.
  destruct (Ascii.eqb c "<"); [|done]. simpl in *.
  destruct (JsString.has_char ">" (JsString.trimEnd s)) eqn:H; [|done].
  apply has_char_trimEnd in H. by rewrite H in Hc.
Qed.

Lemma clean_trim_stripTags s : clean (JsString.trim (stripTags s)).
Proof.
  split; [|apply trim_trimmed].
  apply no_tag_trimEnd, no_tag_trimStart, no_tag_strip.
Qed.

(** X4.  For every query, the empty one included, and every outcome of
    the call, the feed adapter returns at most 20 records, and each is an
    item whose title, link and description hold no tag and have no white
    space at either end. *)
Theorem getGeeksForGeeks_clean (query : string) (fr : fetch_result) :
  ∃ items, getGeeksForGeeks query fr = Normal items ∧
    length items ≤ 20 ∧
    Forall (λ c, ∃ t u d, c = gfg_item t u d ∧ clean t ∧ clean u ∧ clean d)
      items.
Proof.
  unfold getGeeksForGeeks, getGeeksForGeeks_try.
  destruct fr as [e|[o j t]]; simpl.
  { exists []. split; [done|]. split; [simpl; lia | constructor]. }
  destruct o; simpl; [|exists []; split; [done|]; split; [simpl; lia | constructor]].
  destruct t as [t|e]; simpl;
    [|exists []; split; [done|]; split; [simpl; lia | constructor]].
  eexists. split; [reflexivity|].
  destruct (gfg_loop_invariant
    (λ c, ∃ t u d, c = gfg_item t u d ∧ clean t ∧ clean u ∧ clean d)
    (S (String.length t)) query t []) as [HP Hlen];
    [| constructor | simpl; lia | done].
  intros m1 m2 m3 t' d' _. eexists _, _, _. split; [reflexivity|].
  repeat split; apply clean_trim_stripTags.
Qed.

(** ** When the handler answers 500 *)

Lemma to_string_JArr xs :
  to_string (JArr xs) =
  match to_string_elements xs with
  | Throw e => Throw e
  | Normal ss => Normal (JsString.join "," ss)
  end.
Proof.
  simpl.
  assert (∀ l,
    (fix elements (l : list jsval) : completion (list string) :=
       match l with
       | [] => Normal []
       | x :: l' =>
           match (match x with
                  | JUndefined | JNull => Normal ""
                  | _ => to_string x
                  end) with
           | Throw e => Throw e
           | Normal s =>
               match elements l' with
               | Throw e => Throw e
               | Normal ss => Normal (s :: ss)
               end
           end
       end) l = to_string_elements l) as ->; [|done].
  induction l as [|x l IH]; [done|]. rewrite IH. by destruct x.
Qed.

Lemma element_string_printable x :
  (printable x = true → ∃ s, to_string x = Normal s) →
  printable x = true → ∃ s, element_string x = Normal s.
Proof. destruct x; simpl; eauto. Qed.

Lemma element_string_unprintable x :
  (printable x = false → to_string x = Throw TypeError) →
  printable x = false → element_string x = Throw TypeError.
Proof. destruct x; simpl; eauto; done. Qed.

(** [ToString] returns exactly on the printable values, and throws a
    [TypeError] on the others. *)
Lemma to_string_printable v :
  (printable v = true → ∃ s, to_string v = Normal s) ∧
  (printable v = false → to_string v = Throw TypeError).
Proof.
  induction v as [| |b|r|s|xs IH|ps IH] using jsval_nested_ind;
    try (split; [by eauto | done]).
  - split; [destruct b; by eauto | done].
  - rewrite to_string_JArr. simpl.
    induction IH as [|x xs [Hx1 Hx2] _ [IH1 IH2]]; [split; [by eauto | done]|].
    simpl. split.
    + intros [Hx Hxs]%andb_true_iff.
      destruct (element_string_printable x Hx1 Hx) as [s ->].
      destruct (IH1 Hxs) as [s' Hs'].
      destruct (to_string_elements xs); [by eauto | done].
    + intros [Hx|Hxs]%andb_false_iff.
      * by rewrite (element_string_unprintable x Hx2 Hx).
      * destruct (Sumbool.sumbool_of_bool (printable x)) as [Hp|Hp].
        -- destruct (element_string_printable x Hx1 Hp) as [s ->].
           specialize (IH2 Hxs).
           by destruct (to_string_elements xs).
        -- by rewrite (element_string_unprintable x Hx2 Hp).
  - simpl. destruct (has_own "toString" ps); split; by eauto.
Qed.

Lemma toString_truthy v :
  truthy v = true → toString v = to_string v.
Proof. by destruct v. Qed.

Lemma key_printable_spec rnd j c :
  (∃ key, toString (key_operand rnd j c).1 = Normal key) ↔
  key_printable c = true.
Proof.
  unfold key_printable.
  destruct (field_operand c) as [v|] eqn:Hv.
  - rewrite (key_operand_field rnd j c v Hv). simpl.
    assert (truthy v = true) as Ht.
    { unfold field_operand in Hv.
      destruct (truthy (url c)) eqn:?; [congruence|].
      destruct (truthy (title c)) eqn:?; congruence. }
    rewrite (toString_truthy v Ht).
    destruct (to_string_printable v) as [H1 H2].
    destruct (printable v); split; auto.
    intros [key Hkey]. rewrite H2 in Hkey; done.
  - rewrite (key_operand_keyless rnd j c Hv). simpl. split; by eauto.
Qed.

(** The loop returns exactly when every record's key is printable. *)
Lemma dedupe_returns_iff rnd cs : ∀ i seen,
  (∃ out, dedupe rnd i seen [] cs = Normal out) ↔
  forallb key_printable cs = true.
Proof.
  intros i seen. split.
  - revert i seen. induction cs as [|c cs IH]; intros i seen [out H]; [done|].
    apply dedupe_cons_inv in H as (key & Hkey & Hcases). simpl.
    apply andb_true_iff. split.
    + apply (key_printable_spec rnd i c). by exists key.
    + destruct Hcases as [[_ H] | (_ & r & _ & H)]; eapply IH; eauto.
  - intros H. apply dedupe_returns. intros c Hc j.
    apply key_printable_spec.
    rewrite forallb_forall in H. apply H. by apply list_elem_of_In.
Qed.

Lemma forallb_false_elem {A} (f : A → bool) (l : list A) :
  forallb f l = false ↔ ∃ x, x ∈ l ∧ f x = false.
Proof.
  induction l as [|x l IH]; simpl.
  { split; [done|]. by intros (x & Hx%elem_of_nil & _). }
  rewrite andb_false_iff, IH. split.
  - intros [Hx | (y & Hy & Hf)]; [exists x | exists y]; split; try done;
      by constructor.
  - intros (y & [->|Hy]%elem_of_cons & Hf); [by left | right; eauto].
Qed.

(** X5.  The handler answers 200 exactly when the key operand of every
    record the adapters returned is printable, and 500 exactly when some
    record has a truthy [url], or with a falsy [url] a truthy [title], that
    holds an object with a ["toString"] member; no other status occurs. *)
Theorem handler_status (env : gmap string string) (q : query_param)
    (w : world) (res : server_response) :
  (statusCode (handler env q w res) = 200 ↔
   forallb key_printable (allCourses env (read_query q) w) = true) ∧
  (statusCode (handler env q w res) = 500 ↔
   ∃ c, c ∈ allCourses env (read_query q) w ∧ key_printable c = false) ∧
  (statusCode (handler env q w res) = 200 ∨
   statusCode (handler env q w res) = 500).
Proof.
  pose proof (dedupe_returns_iff (random w) (allCourses env (read_query q) w)
                0 ∅) as Hiff.
  assert (forallb key_printable (allCourses env (read_query q) w) = false ↔
          ∃ c, c ∈ allCourses env (read_query q) w ∧ key_printable c = false)
    as Hex.
  { apply forallb_false_elem. }
  unfold handler, aggregate. fold (allCourses env (read_query q) w).
  destruct (dedupe (random w) 0 ∅ [] (allCourses env (read_query q) w))
    as [out|e] eqn:Hd; cbn [statusCode send_json status].
  - assert (forallb key_printable (allCourses env (read_query q) w) = true)
      as Hall by (apply Hiff; by exists out).
    split; [done|]. split; [|by left].
    split; [done|]. rewrite <- Hex, Hall. done.
  - assert (forallb key_printable (allCourses env (read_query q) w) = false)
      as Hall.
    { apply not_true_iff_false. intros [out Hout]%Hiff. congruence. }
    split; [rewrite Hall; split; done|]. split; [|by right].
    rewrite <- Hex. done.
Qed.

(** ** What the merged list is made of *)

Lemma filter_truthy_course (l : list course) :
  List.filter (λ c, truthy (course_obj c)) l = l.
Proof. induction l as [|c l IH]; [done|]. simpl. f_equal. exact IH. Qed.

(** [allCourses] is the adapters' results one after the other, in the
    order of [promises]. *)
Lemma allCourses_concat env q w :
  ∃ lC lCC lF lG lU,
    call q w Coursera = Normal lC ∧
    call q w ClassCentral = Normal lCC ∧
    call q w FreeCodeCamp = Normal lF ∧
    call q w GeeksForGeeks = Normal lG ∧
    call q w Udemy = Normal lU ∧
    allCourses env q w =
      lC ++ lCC ++ lF ++ lG ++ (if has_rapidapi_key env then lU else []).
Proof.
  destruct (call_returns q w Coursera) as [lC HC].
  destruct (call_returns q w ClassCentral) as [lCC HCC].
  destruct (call_returns q w FreeCodeCamp) as [lF HF].
  destruct (call_returns q w GeeksForGeeks) as [lG HG].
  destruct (call_returns q w Udemy) as [lU HU].
  exists lC, lCC, lF, lG, lU. repeat (split; [done|]).
  unfold allCourses, flatten, allSettled, promises, sources.
  rewrite filter_truthy_course.
  destruct (has_rapidapi_key env); cbn [app fmap list_fmap];
    rewrite HC, HCC, HF, HG, ?HU; simpl; by rewrite ?app_nil_r.
Qed.

Lemma dedupe_sublist rnd cs : ∀ i seen out,
  dedupe rnd i seen [] cs = Normal out → sublist out cs.
Proof.
  induction cs as [|c cs IH]; intros i seen out H.
  { injection H as <-. constructor. }
  apply dedupe_cons_inv in H as (key & _ & [[_ H] | (_ & r & -> & H)]).
  - apply sublist_cons. eauto.
  - apply sublist_skip. eauto.
Qed.

Lemma dedupe_first rnd c cs i out :
  dedupe rnd i ∅ [] (c :: cs) = Normal out → ∃ r, out = c :: r.
Proof.
  intros H. apply dedupe_cons_inv in H as (key & _ & [[Hin _] | (_ & r & -> & _)]).
  - by apply not_elem_of_empty in Hin.
  - by exists r.
Qed.

(** X6.  The curriculum adapter always contributes a record, so the merged
    list is never empty, and a status 200 response never has the empty
    array as its body: its first element is the first record the adapters
    returned. *)
Theorem response_200_not_empty (env : gmap string string) (q : query_param)
    (w : world) (res : server_response) :
  (∃ c, c ∈ allCourses env (read_query q) w ∧ platform c = "freeCodeCamp") ∧
  (statusCode (handler env q w res) = 200 →
   ∃ c cs rest,
     allCourses env (read_query q) w = c :: cs ∧
     body (handler env q w res) = Some (JArr (stringify (course_obj c) :: rest))).
Proof.
  destruct (allCourses_concat env (read_query q) w)
    as (lC & lCC & lF & lG & lU & _ & _ & HF & _ & _ & Hall).
  destruct (getFreeCodeCamp_one (read_query q) (fetched w FreeCodeCamp))
    as (f & Hf & Hp).
  simpl in HF. rewrite Hf in HF. injection HF as <-.
  assert (f ∈ allCourses env (read_query q) w) as Hin by (rewrite Hall; set_solver).
  split; [by exists f|].
  unfold handler, aggregate. fold (allCourses env (read_query q) w).
  destruct (allCourses env (read_query q) w) as [|c cs] eqn:Hcs.
  { by apply elem_of_nil in Hin. }
  destruct (dedupe (random w) 0 ∅ [] (c :: cs)) as [out|e] eqn:Hd;
    cbn [statusCode body send_json status]; [|done].
  intros _. apply dedupe_first in Hd as [r ->].
  by exists c, cs, (List.map stringify (course_obj <$> r)).
Qed.

Lemma response_200_not_empty_witness :
  ∃ c cs rest,
    allCourses ∅ (read_query QMissing) all_down = c :: cs ∧
    body (handler ∅ QMissing all_down fresh_response) =
      Some (JArr (stringify (course_obj c) :: rest)).
Proof.
  apply (proj2 (response_200_not_empty ∅ QMissing all_down fresh_response)).
  vm_compute. reflexivity.
Defined.

(** X7.  The deduplicated list is a subsequence of the adapters' results
    put one after the other in the order Coursera, Class Central,
    freeCodeCamp, GeeksforGeeks, Udemy (the last only with the key): the
    handler adds no record and changes no order. *)
Theorem aggregate_subsequence (env : gmap string string) (q : string)
    (w : world) :
  ∃ lC lCC lF lG lU,
    getCoursera q (fetched w Coursera) = Normal lC ∧
    getClassCentral (fetched w ClassCentral) = Normal lCC ∧
    getFreeCodeCamp q (fetched w FreeCodeCamp) = Normal lF ∧
    getGeeksForGeeks q (fetched w GeeksForGeeks) = Normal lG ∧
    getUdemy q (fetched w Udemy) = Normal lU ∧
    ∀ out, aggregate env q w = Normal out →
      sublist out
        (lC ++ lCC ++ lF ++ lG ++ (if has_rapidapi_key env then lU else [])) ∧
      length out ≤ length lC + length lCC + length lF + length lG
                   + (if has_rapidapi_key env then length lU else 0).
Proof.
  destruct (allCourses_concat env q w)
    as (lC & lCC & lF & lG & lU & HC & HCC & HF & HG & HU & Hall).
  exists lC, lCC, lF, lG, lU. repeat (split; [done|]).
  intros out H. unfold aggregate in H. fold (allCourses env q w) in H.
  apply dedupe_sublist in H. rewrite Hall in H. split; [done|].
  apply sublist_length in H. rewrite !length_app in H.
  destruct (has_rapidapi_key env); simpl in *; lia.
Qed.

(** ** No key is lost *)

Lemma dedupe_key_kept rnd k cs : ∀ i seen out,
  dedupe rnd i seen [] cs = Normal out →
  ∀ c, c ∈ cs → field_key c = Some k →
  k ∈ seen ∨
  ∃ c', c' ∈ out ∧
    (field_key c' = Some k ∨ (keyless c' = true ∧ ∃ n, rnd n = k)).
Proof.
  induction cs as [|c0 cs IH]; intros i seen out H c Hc Hk.
  { by apply elem_of_nil in Hc. }
  apply dedupe_cons_inv in H as (key & Hkey & Hcases).
  apply elem_of_cons in Hc as [->|Hc].
  - destruct (field_key_operand rnd i c0 k Hk) as [Hs _].
    assert (key = k) as -> by congruence.
    destruct Hcases as [[Hin _] | (_ & r & -> & _)]; [by left | right].
    exists c0. split; [by constructor | by left].
  - destruct Hcases as [[_ H] | (_ & r & -> & H)].
    { eapply IH; eauto. }
    destruct (IH _ _ _ H c Hc Hk) as [[->%elem_of_singleton|Hin]%elem_of_union
                                      | (c' & Hc' & Hcase)].
    + right. exists c0. split; [by constructor|].
      apply record_key_cases in Hkey as [[Hf _] | (Hkl & Hd & _)]; [by left|].
      right. split; [done|]. by exists i.
    + by left.
    + right. exists c'. split; [by constructor | done].
Qed.

(** X8.  The dedup loop loses no key: for every record of the input whose
    key comes from its url or title, the output holds a record with that
    same key, provided no draw prints as that key. *)
Theorem dedupe_keeps_every_key (rnd : nat → string) (cs out : list course)
    (c : course) (k : string) :
  dedupe rnd 0 ∅ [] cs = Normal out →
  c ∈ cs → field_key c = Some k → (∀ n, rnd n ≠ k) →
  ∃ c', c' ∈ out ∧ c' ∈ cs ∧ field_key c' = Some k.
Proof.
  intros H Hc Hk Hrnd.
  destruct (dedupe_key_kept rnd k cs 0 ∅ out H c Hc Hk)
    as [Hin | (c' & Hc' & [Hf | (_ & n & Hn)])].
  - by apply not_elem_of_empty in Hin.
  - exists c'. split; [done|]. split; [|done].
    apply dedupe_sublist in H. by eapply elem_of_sublist.
  - by apply Hrnd in Hn.
Qed.

Lemma dedupe_keeps_every_key_witness :
  ∃ c', c' ∈ [entry (JStr "Algorithms") (JStr "https://a.example/algo") "Coursera";
              entry (JStr "Graphs") JNull "Class Central"] ∧
        c' ∈ [entry (JStr "Algorithms") (JStr "https://a.example/algo") "Coursera";
              entry (JStr "Graphs") JNull "Class Central";
              entry (JStr "Graphs") JNull "Udemy"] ∧
        field_key c' = Some "Graphs".
Proof.
  apply (dedupe_keeps_every_key two_draws
    [entry (JStr "Algorithms") (JStr "https://a.example/algo") "Coursera";
     entry (JStr "Graphs") JNull "Class Central";
     entry (JStr "Graphs") JNull "Udemy"] _
    (entry (JStr "Graphs") JNull "Udemy") "Graphs").
  - vm_compute. reflexivity.
  - repeat constructor.
  - reflexivity.
  - intros [|n]; discriminate.
Defined.

(** ** Deduplicating twice *)

Lemma dedupe_draws_irrelevant rnd rnd' cs : ∀ i i' seen acc,
  (∀ c, c ∈ cs → keyless c = false) →
  dedupe rnd i seen acc cs = dedupe rnd' i' seen acc cs.
Proof.
  induction cs as [|c cs IH]; intros i i' seen acc Hcs; [done|].
  assert (∀ c', c' ∈ cs → keyless c' = false) as Hcs'
    by (intros c' Hc'; apply Hcs; by constructor).
  destruct (field_operand c) as [v|] eqn:Hv.
  2:{ apply keyless_field_operand in Hv.
      rewrite (Hcs c) in Hv by constructor. done. }
  simpl. rewrite (key_operand_field rnd i c v Hv),
    (key_operand_field rnd' i' c v Hv).
  destruct (toString v) as [key|e]; simpl; [|done].
  case_decide; by apply IH.
Qed.

Lemma dedupe_distinct rnd l : ∀ i seen,
  (∀ c, c ∈ l → ∃ k, field_key c = Some k) →
  NoDup (omap field_key l) →
  (∀ k, k ∈ omap field_key l → k ∉ seen) →
  dedupe rnd i seen [] l = Normal l.
Proof.
  induction l as [|c l IH]; intros i seen Hkeys Hnd Hseen; [done|].
  destruct (Hkeys c) as [k Hk]; [by constructor|].
  rewrite dedupe_cons.
  destruct (field_key_operand rnd i c k Hk) as [-> ->]. simpl.
  simpl in Hnd, Hseen. rewrite Hk in Hnd, Hseen.
  apply NoDup_cons in Hnd as [Hk' Hnd].
  rewrite decide_False by (apply Hseen; by constructor).
  rewrite IH; [done| |done|].
  - intros c' Hc'. apply Hkeys. by constructor.
  - intros k' Hin [->%elem_of_singleton|Hs]%elem_of_union; [done|].
    apply (Hseen k'); [by constructor 2 | done].
Qed.

(** X9.  When every record of the input has a truthy url or a truthy
    title, the result of the dedup loop does not depend on the draws, and
    running the loop on its own output gives that output back. *)
Theorem dedupe_idempotent (rnd rnd' : nat → string) (cs out : list course) :
  (∀ c, c ∈ cs → keyless c = false) →
  dedupe rnd 0 ∅ [] cs = Normal out →
  dedupe rnd' 0 ∅ [] cs = Normal out ∧
  dedupe rnd' 0 ∅ [] out = Normal out.
Proof.
  intros Hcs H. split.
  { by rewrite (dedupe_draws_irrelevant rnd' rnd cs 0 0 ∅ [] Hcs). }
  pose proof (dedupe_sublist rnd cs 0 ∅ out H) as Hsub.
  assert (forallb key_printable cs = true) as Hprint
    by (apply (dedupe_returns_iff rnd cs 0 ∅); by exists out).
  apply dedupe_distinct.
  - intros c Hc. pose proof (elem_of_sublist _ _ _ Hc Hsub) as Hc'.
    rewrite forallb_forall in Hprint.
    pose proof (Hprint c (proj1 (list_elem_of_In _ _) Hc')) as Hp.
    apply (key_printable_spec rnd 0 c) in Hp as [key Hkey].
    apply record_key_cases in Hkey as [[Hf _] | (Hkl & _)]; [by exists key|].
    rewrite (Hcs c Hc') in Hkl. done.
  - by apply (dedupe_field_keys rnd cs 0 ∅ out).
  - set_solver.
Qed.

Lemma dedupe_idempotent_witness :
  dedupe counting_draws 0 ∅ []
    [entry (JStr "Algorithms") (JStr "https://a.example/algo") "Coursera";
     entry (JStr "Algorithms") (JStr "https://a.example/algo") "Udemy"] =
    Normal [entry (JStr "Algorithms") (JStr "https://a.example/algo") "Coursera"] ∧
  dedupe counting_draws 0 ∅ []
    [entry (JStr "Algorithms") (JStr "https://a.example/algo") "Coursera"] =
    Normal [entry (JStr "Algorithms") (JStr "https://a.example/algo") "Coursera"].
Proof.
  apply (dedupe_idempotent two_draws counting_draws
    [entry (JStr "Algorithms") (JStr "https://a.example/algo") "Coursera";
     entry (JStr "Algorithms") (JStr "https://a.example/algo") "Udemy"]).
  - intros c Hc.
    repeat (apply elem_of_cons in Hc as [->|Hc]; [reflexivity|]).
    by apply elem_of_nil in Hc.
  - vm_compute. reflexivity.
Defined.

(** ** The shape of a record *)

Lemma or_else_defined a d v :
  d ≠ JUndefined → or_else a (Normal d) = Normal v → v ≠ JUndefined.
Proof.
  intros Hd. unfold or_else. destruct a as [x|e]; simpl; [|done].
  destruct (truthy x) eqn:Hx; intros [= <-]; [|done]. by intros ->.
Qed.

Ltac field_defined :=
  match goal with
  | H : or_else _ (Normal ?d) = Normal ?v |- ?v ≠ JUndefined =>
      exact (or_else_defined _ d v ltac:(discriminate) H)
  end.

Lemma coursera_item_well_formed c y :
  coursera_item c = Normal y → well_formed Coursera y.
Proof.
  unfold coursera_item. intros H.
  destruct (or_else (get c "name") (get c "title")) as [t|]; simpl in H; [|done].
  destruct (or_else (or_else _ _) (Normal (JStr ""))) as [d|] eqn:Hd;
    simpl in H; [|done].
  destruct (or_else (get c "photoUrl") (Normal JNull)) as [i|] eqn:Hi;
    simpl in H; [|done].
  destruct (get c "slug") as [slug|]; simpl in H; [|done].
  destruct (truthy slug); [destruct (to_string slug); simpl in H; [|done]|];
    simpl in H; injection H as <-; repeat split; simpl; try done;
    field_defined.
Qed.

Lemma classcentral_item_well_formed c y :
  classcentral_item c = Normal y → well_formed ClassCentral y.
Proof.
  unfold classcentral_item. intros H.
  destruct (get c "title") as [t|]; simpl in H; [|done].
  destruct (or_else (get c "description") (Normal (JStr ""))) as [d|] eqn:Hd;
    simpl in H; [|done].
  destruct (or_else (get c "image") (Normal JNull)) as [i|] eqn:Hi;
    simpl in H; [|done].
  destruct (or_else (get c "url") (Normal JNull)) as [u|] eqn:Hu;
    simpl in H; [|done].
  injection H as <-. repeat split; simpl; try done; field_defined.
Qed.

Lemma udemy_item_well_formed c y :
  udemy_item c = Normal y → well_formed Udemy y.
Proof.
  unfold udemy_item. intros H.
  destruct (or_else (get c "title") (get c "name")) as [t|]; simpl in H; [|done].
  destruct (or_else (or_else (get c "headline") _) (Normal (JStr "")))
    as [d|] eqn:Hd; simpl in H; [|done].
  destruct (or_else (or_else (get c "image_480x270") _) (Normal JNull))
    as [i|] eqn:Hi; simpl in H; [|done].
  destruct (or_else (get c "url") (Normal JNull)) as [u|] eqn:Hu;
    simpl in H; [|done].
  destruct (get c "coupon") as [coupon|]; simpl in H; [|done].
  injection H as <-. repeat split; simpl; try done; field_defined.
Qed.

Lemma getFreeCodeCamp_well_formed q fr l :
  getFreeCodeCamp q fr = Normal l → Forall (well_formed FreeCodeCamp) l.
Proof.
  unfold getFreeCodeCamp, getFreeCodeCamp_try.
  assert (well_formed FreeCodeCamp fcc_catch_entry) as Hcatch by (by repeat split).
  assert (well_formed FreeCodeCamp fcc_not_ok_entry) as Hnot by (by repeat split).
  destruct fr as [e|[o j t]]; simpl; [intros [= <-]; by constructor|].
  destruct o; simpl; [|intros [= <-]; by constructor].
  destruct j as [data|e]; simpl; [|intros [= <-]; by constructor].
  destruct (or_else (get data "title") _) as [t'|]; simpl;
    [|intros [= <-]; by constructor].
  destruct (or_else (get data "description") _) as [d|] eqn:Hd; simpl;
    [|intros [= <-]; by constructor].
  intros [= <-]. constructor; [|constructor].
  repeat split; simpl; try done. field_defined.
Qed.

(** Every record an adapter returns is well formed. *)
Lemma call_well_formed q w s l :
  call q w s = Normal l → Forall (well_formed s) l.
Proof.
  destruct s; simpl.
  - intros [H| ->]%try_catch_inv; [|constructor].
    unfold getCoursera_try in H. bind_inv H; [constructor|].
    eapply array_map_Forall; [apply coursera_item_well_formed | done].
  - intros [H| ->]%try_catch_inv; [|constructor].
    unfold getClassCentral_try in H. bind_inv H; [constructor|].
    eapply array_map_Forall; [apply classcentral_item_well_formed | done].
  - apply getFreeCodeCamp_well_formed.
  - intros [H| ->]%try_catch_inv; [|constructor].
    unfold getGeeksForGeeks_try in H. bind_inv H; [constructor|].
    eapply proj1, gfg_loop_invariant; [|constructor | simpl; lia].
    intros m1 m2 m3 t d _. by repeat split.
  - intros [H| ->]%try_catch_inv; [|constructor].
    unfold getUdemy_try in H. bind_inv H; [constructor|].
    eapply array_map_Forall; [apply udemy_item_well_formed | done].
Qed.

Lemma allCourses_well_formed env q w c :
  c ∈ allCourses env q w → ∃ s, s ∈ sources env ∧ well_formed s c.
Proof.
  unfold allCourses, flatten. intros H%list_elem_of_In.
  apply List.filter_In in H as [H _].
  apply List.in_flat_map in H as (r & Hr & Hc).
  apply List.filter_In in Hr as [Hr _].
  apply list_elem_of_In in Hr.
  unfold allSettled, promises in Hr.
  apply list_elem_of_fmap in Hr as (p & -> & Hp).
  apply list_elem_of_fmap in Hp as (s & -> & Hs).
  exists s. split; [done|].
  destruct (call q w s) as [l|e] eqn:Hcall; simpl in Hc; [|done].
  apply call_well_formed in Hcall. rewrite Forall_forall in Hcall.
  apply Hcall. by apply list_elem_of_In.
Qed.

Lemma aggregate_well_formed env q w deduped :
  aggregate env q w = Normal deduped →
  Forall (λ c, ∃ s, s ∈ sources env ∧ well_formed s c) deduped.
Proof.
  unfold aggregate. apply dedupe_Forall.
  apply Forall_forall. intros c Hc. by apply (allCourses_well_formed env q w).
Qed.

Lemma stringify_defined v : stringify v ≠ JUndefined.
Proof. destruct v; simpl; try done. by destruct (finite repr). Qed.

Lemma course_member c k v :
  own_property k
    [("title", title c); ("description", description c); ("image", image c);
     ("url", url c); ("platform", JStr (platform c)); ("free", JBool (free c))]
    = Some v →
  v ≠ JUndefined →
  get (stringify (course_obj c)) k = Normal (stringify v).
Proof.
  intros Hk Hv.
  change (stringify (course_obj c)) with
    (JObj (json_members
       [("title", title c); ("description", description c); ("image", image c);
        ("url", url c); ("platform", JStr (platform c)); ("free", JBool (free c))])).
  unfold get. by rewrite (own_property_json_members k _ v Hk Hv).
Qed.

(** X10.  Every record of a response body is an object that has the
    members description, image, url, platform and free, none of them
    dropped by the serialisation: each adapter gives these fields a value
    that is not [undefined].  (Only title can be missing.) *)
Theorem body_record_members (env : gmap string string) (q : query_param)
    (w : world) (res : server_response) :
  Forall (λ o, ∀ k, k ∈ ["description"; "image"; "url"; "platform"; "free"] →
               ∃ v, get o k = Normal v ∧ v ≠ JUndefined)
    (records_of (handler env q w res)).
Proof.
  rewrite records_of_handler.
  destruct (aggregate env (read_query q) w) as [deduped|e] eqn:H; [|constructor].
  rewrite !Forall_fmap. apply aggregate_well_formed in H.
  eapply Forall_impl; [exact H|].
  intros c (s & _ & _ & _ & Hd & Hi & Hu) k Hk. unfold compose.
  repeat (apply elem_of_cons in Hk as [->|Hk];
          [eexists; split; [by apply course_member | apply stringify_defined]|]).
  by apply elem_of_nil in Hk.
Qed.

(** X11.  Only the Udemy adapter ever clears the [free] flag: without the
    RapidAPI key every record of the deduplicated list, and of the body
    sent, is marked free. *)
Theorem no_key_all_free (env : gmap string string) (q : query_param)
    (w : world) (res : server_response) :
  has_rapidapi_key env = false →
  (∀ deduped, aggregate env (read_query q) w = Normal deduped →
              Forall (λ c, free c = true) deduped) ∧
  Forall (λ o, get o "free" = Normal (JBool true))
    (records_of (handler env q w res)).
Proof.
  intros Hkey.
  assert (∀ deduped, aggregate env (read_query q) w = Normal deduped →
                     Forall (λ c, free c = true) deduped) as Hfree.
  { intros deduped H. apply aggregate_well_formed in H.
    eapply Forall_impl; [exact H|].
    intros c (s & Hs & _ & Hf & _). apply Hf. intros ->.
    apply sources_Udemy in Hs. congruence. }
  split; [done|].
  rewrite records_of_handler.
  destruct (aggregate env (read_query q) w) as [deduped|e] eqn:H; [|constructor].
  rewrite !Forall_fmap.
  eapply Forall_impl; [exact (Hfree deduped eq_refl)|].
  intros c Hc. unfold compose.
  rewrite (course_member c "free" (JBool (free c))) by done. by rewrite Hc.
Qed.

Lemma no_key_all_free_witness :
  (∀ deduped, aggregate ∅ (read_query (QString "python")) all_down = Normal deduped →
              Forall (λ c, free c = true) deduped) ∧
  Forall (λ o, get o "free" = Normal (JBool true))
    (records_of (handler ∅ (QString "python") all_down fresh_response)).
Proof.
  apply (no_key_all_free ∅ (QString "python") all_down fresh_response).
  vm_compute. reflexivity.
Defined.

(** ** The requests *)

Lemma all_chars_app P s t :
  all_chars P (s +:+ t) = all_chars P s && all_chars P t.
Proof.
  induction s as [|c s IH]; [done|]. simpl. by rewrite IH, andb_assoc.
Qed.

Lemma count_char_app a s t :
  count_char a (s +:+ t) = count_char a s + count_char a t.
Proof. induction s as [|c s IH]; [done|]. simpl. rewrite IH. lia. Qed.

Lemma encode_unit_chars c : all_chars component_char (encode_unit c) = true.
Proof. destruct c as [[] [] [] [] [] [] [] []]; vm_compute; reflexivity. Qed.

Lemma encodeURIComponent_chars s :
  all_chars component_char (encodeURIComponent s) = true.
Proof.
  induction s as [|c s IH]; [done|]. simpl.
  by rewrite all_chars_app, encode_unit_chars, IH.
Qed.

Lemma count_char_absent a s :
  component_char a = false → all_chars component_char s = true →
  count_char a s = 0.
Proof.
  intros Ha. induction s as [|c s IH]; [done|]. simpl.
  intros [Hc Hs]%andb_true_iff. rewrite (IH Hs).
  destruct (Ascii.eqb_spec a c) as [->|]; [congruence | done].
Qed.

Lemma encodeURIComponent_unreserved s :
  all_chars unreserved s = true → encodeURIComponent s = s.
Proof.
  induction s as [|c s IH]; [done|]. simpl.
  intros [Hc Hs]%andb_true_iff. unfold encode_unit. rewrite Hc, IH; done.
Qed.

(** X12.  Whatever the query, its encoding holds only letters, digits, the
    marks [- _ . ! ~ * ' ( )] and ["%"]; a query made of unreserved characters
    is sent as it is; and the URL the catalog adapter fetches has exactly
    one ["?"], exactly its two ["&"] and no ["#"], so a query adds no
    parameter to the request and cuts none off. *)
Theorem coursera_url_parameters (query : string) :
  all_chars component_char (encodeURIComponent query) = true ∧
  (all_chars unreserved query = true → encodeURIComponent query = query) ∧
  count_char "?" (coursera_url query) = 1 ∧
  count_char "&" (coursera_url query) = 2 ∧
  count_char "#" (coursera_url query) = 0.
Proof.
  split; [apply encodeURIComponent_chars|].
  split; [apply encodeURIComponent_unreserved|].
  unfold coursera_url. rewrite !count_char_app.
  rewrite !(count_char_absent _ (encodeURIComponent _))
    by (done || apply encodeURIComponent_chars).
  done.
Qed.

Lemma coursera_url_parameters_witness :
  encodeURIComponent "python" = "python".
Proof.
  apply (proj1 (proj2 (coursera_url_parameters "python"))). reflexivity.
Defined.

(** X13.  The request of the Udemy adapter always names a host that is not
    empty, the same in the URL and in the X-RapidAPI-Host header:
    RAPIDAPI_HOST when it is set and not empty, the default host otherwise.
    After the fixed path and parameters the URL holds only the encoded
    query, which has no ["&"] and no ["#"]. *)
Theorem udemy_request_host (env : gmap string string) (query : string) :
  udemy_host env ≠ "" ∧
  own_property "X-RapidAPI-Host" (udemy_headers env) = Some (JStr (udemy_host env)) ∧
  (∀ h, env !! "RAPIDAPI_HOST" = Some h → h ≠ "" → udemy_host env = h) ∧
  (env !! "RAPIDAPI_HOST" = None ∨ env !! "RAPIDAPI_HOST" = Some "" →
   udemy_host env = "udemy-paid-courses-for-free-api.p.rapidapi.com") ∧
  ∃ encoded,
    udemy_url env query =
      "https://" +:+ udemy_host env
      +:+ "/rapidapi/courses/search?page=1&page_size=20&query=" +:+ encoded ∧
    count_char "&" encoded = 0 ∧ count_char "#" encoded = 0.
Proof.
  unfold udemy_host. split.
  { destruct (env !! "RAPIDAPI_HOST") as [h|]; [|done].
    destruct (String.eqb_spec h ""); done. }
  split; [done|]. split.
  { intros h -> Hh. by destruct (String.eqb_spec h ""). }
  split.
  { by intros [-> | ->]. }
  eexists. split; [reflexivity|].
  split; apply count_char_absent; (done || apply encodeURIComponent_chars).
Qed.

Lemma udemy_request_host_witness :
  udemy_host ∅ = "udemy-paid-courses-for-free-api.p.rapidapi.com".
Proof.
  apply (proj1 (proj2 (proj2 (proj2 (udemy_request_host ∅ ""))))).
  left. vm_compute. reflexivity.
Defined.

(** ** All or nothing *)

Lemma mapM_completion_length {A B} (f : A → completion B) xs l :
  mapM f xs = Normal l → length l = length xs.
Proof.
  revert l. induction xs as [|x xs IH]; intros l H; simpl in H.
  - by injection H as <-.
  - destruct (f x) as [y|e]; simpl in H; [|done].
    destruct (mapM f xs) as [k|e]; simpl in H; [|done].
    injection H as <-. simpl. by rewrite (IH k).
Qed.

Lemma mapM_completion_Throw {A B} (f : A → completion B) xs x e :
  x ∈ xs → f x = Throw e → ∃ e', mapM f xs = Throw e'.
Proof.
  intros Hx Hf. induction xs as [|y xs IH]; [by apply elem_of_nil in Hx|].
  simpl. apply elem_of_cons in Hx as [<-|Hx].
  - rewrite Hf. by eexists.
  - destruct (f y); simpl; [|by eexists].
    destruct (IH Hx) as [e' ->]. by eexists.
Qed.

Lemma call_listing q w s r data :
  lists_json s = true → fetched w s = FetchResolves r → ok r = true →
  json r = Normal data →
  call q w s =
  try_catch (v ← listing s data; array_map (item_of s) v) (λ err, Normal []).
Proof.
  intros Hs Hw Hok Hj.
  destruct s; try discriminate Hs; simpl;
    unfold getCoursera, getCoursera_try, getClassCentral, getClassCentral_try,
      getUdemy, getUdemy_try;
    rewrite Hw; simpl; rewrite Hok, Hj; simpl; try reflexivity;
    by destruct (get data _).
Qed.

Lemma item_of_nullish s x :
  x = JNull ∨ x = JUndefined → ∃ e, item_of s x = Throw e.
Proof. intros [-> | ->]; destruct s; by eexists. Qed.

(** X14.  The three adapters that map a JSON array are all or nothing: on
    a response that is [ok] and parses, the result is either the record of
    every element of the array, in order, or the empty list; one [null]
    element in the array empties the whole result of that source. *)
Theorem adapter_all_or_nothing (q : string) (w : world) (s : source)
    (r : http_response) (data : jsval) (l : list course) :
  lists_json s = true → fetched w s = FetchResolves r → ok r = true →
  json r = Normal data → call q w s = Normal l →
  (l = [] ∨
   ∃ xs, listing s data = Normal (JArr xs) ∧
         mapM (item_of s) xs = Normal l ∧ length l = length xs) ∧
  (∀ xs, listing s data = Normal (JArr xs) →
         JNull ∈ xs ∨ JUndefined ∈ xs → l = []).
Proof.
  intros Hs Hw Hok Hj Hcall.
  rewrite (call_listing q w s r data Hs Hw Hok Hj) in Hcall.
  destruct (listing s data) as [v|e] eqn:Hv; simpl in Hcall.
  2:{ injection Hcall as <-. split; [by left | done]. }
  destruct v; simpl in Hcall; try (injection Hcall as <-; split; [by left|done]).
  destruct (mapM (item_of s) elems) as [k|e] eqn:Hk; simpl in Hcall;
    injection Hcall as <-.
  - split.
    + right. exists elems. split; [done|]. split; [done|].
      by apply mapM_completion_length in Hk.
    + intros xs [= <-] Hnull.
      assert (∃ x, x ∈ elems ∧ (x = JNull ∨ x = JUndefined)) as (x & Hx & Hn)
        by (destruct Hnull; eauto).
      destruct (item_of_nullish s x Hn) as [e He].
      destruct (mapM_completion_Throw _ _ _ _ Hx He) as [e' He'].
      congruence.
  - split; [by left | done].
Qed.

Lemma adapter_all_or_nothing_witness :
  (([] : list course) = [] ∨
   ∃ xs,
     listing ClassCentral
       (JArr [JObj [("title", JStr "Algorithms");
                    ("url", JStr "https://a.example/algo")]; JNull])
       = Normal (JArr xs) ∧
     mapM (item_of ClassCentral) xs = Normal [] ∧
     length ([] : list course) = length xs) ∧
  (∀ xs,
     listing ClassCentral
       (JArr [JObj [("title", JStr "Algorithms");
                    ("url", JStr "https://a.example/algo")]; JNull])
       = Normal (JArr xs) →
     JNull ∈ xs ∨ JUndefined ∈ xs → ([] : list course) = []).
Proof.
  apply (adapter_all_or_nothing "" broken_list_world ClassCentral
           {| ok := true;
              json := Normal
                (JArr [JObj [("title", JStr "Algorithms");
                             ("url", JStr "https://a.example/algo")]; JNull]);
              text := Throw TypeError |}); reflexivity.
Defined.

(** ** The links of the catalog adapter *)

Lemma coursera_item_url c y :
  coursera_item c = Normal y →
  url y = JNull ∨
  ∃ slug, url y = JStr ("https://www.coursera.org/learn/" +:+ slug).
Proof.
  unfold coursera_item. intros H.
  destruct (or_else (get c "name") (get c "title")) as [t|]; simpl in H; [|done].
  destruct (or_else (or_else _ _) (Normal (JStr ""))) as [d|];
    simpl in H; [|done].
  destruct (or_else (get c "photoUrl") (Normal JNull)) as [i|];
    simpl in H; [|done].
  destruct (get c "slug") as [slug|]; simpl in H; [|done].
  destruct (truthy slug);
    [destruct (to_string slug) as [s|]; simpl in H; [|done]|];
    simpl in H; injection H as <-; simpl; [right; by exists s | by left].
Qed.

(** X15.  Every record the catalog adapter returns has a url that is null
    or a string that begins with https://www.coursera.org/learn/, so the
    key of a record with a url is always printable, and its platform is
    Coursera and its free flag set. *)
Theorem getCoursera_links (q : string) (fr : fetch_result) (l : list course) :
  getCoursera q fr = Normal l →
  Forall (λ c,
    (url c = JNull ∨
     ∃ slug, url c = JStr ("https://www.coursera.org/learn/" +:+ slug)) ∧
    (truthy (url c) = true → key_printable c = true) ∧
    platform c = "Coursera" ∧ free c = true) l.
Proof.
  intros [H| ->]%try_catch_inv; [|constructor].
  unfold getCoursera_try in H. bind_inv H; [constructor|].
  eapply array_map_Forall; [|done].
  intros c y Hy.
  pose proof (coursera_item_url c y Hy) as Hurl.
  pose proof (coursera_item_well_formed c y Hy) as (Hp & Hf & _).
  split; [done|]. split; [|split; [done | by apply Hf]].
  intros Ht. unfold key_printable, field_operand. rewrite Ht.
  destruct Hurl as [Hu | [slug Hu]]; by rewrite Hu.
Qed.

Lemma getCoursera_links_witness :
  Forall (λ c,
    (url c = JNull ∨
     ∃ slug, url c = JStr ("https://www.coursera.org/learn/" +:+ slug)) ∧
    (truthy (url c) = true → key_printable c = true) ∧
    platform c = "Coursera" ∧ free c = true)
    [ {| title := JStr "Machine Learning"; description := JStr "";
         image := JNull;
         url := JStr "https://www.coursera.org/learn/machine-learning";
         platform := "Coursera"; free := true |};
      {| title := JStr "Untitled draft"; description := JStr "";
         image := JNull; url := JNull;
         platform := "Coursera"; free := true |} ].
Proof.
  apply (getCoursera_links "ml" coursera_sample). vm_compute. reflexivity.
Defined.

(** ** The paid-course source, called or not *)

Lemma promises_calls env q w :
  promises env q w =
  [getCoursera q (fetched w Coursera); getClassCentral (fetched w ClassCentral);
   getFreeCodeCamp q (fetched w FreeCodeCamp);
   getGeeksForGeeks q (fetched w GeeksForGeeks)]
  ++ (if has_rapidapi_key env then [getUdemy q (fetched w Udemy)] else []).
Proof. unfold promises, sources. by destruct (has_rapidapi_key env). Qed.

Lemma getUdemy_in_allCourses env q w lU c :
  has_rapidapi_key env = true →
  getUdemy q (fetched w Udemy) = Normal lU → c ∈ lU → c ∈ allCourses env q w.
Proof.
  intros Hkey HU Hc.
  destruct (allCourses_concat env q w)
    as (lC & lCC & lF & lG & lU' & _ & _ & _ & _ & HU' & ->).
  simpl in HU'. rewrite HU in HU'. injection HU' as <-.
  rewrite Hkey. set_solver.
Qed.

(** C5.  The handler calls the four unconditional adapters and, after
    them, the paid-course adapter if and only if RAPIDAPI_KEY is set and is
    not the empty string.  Without the key (absent or empty) no record of
    the deduplicated list or of the body sent has the platform "Udemy".
    With the key, every record the paid-course adapter returns is in the
    merged list, and a key that only Udemy records carry, and that no draw
    prints as, comes out with a record of platform "Udemy", in the
    deduplicated list and in the body. *)
Theorem udemy_iff_rapidapi_key (env : gmap string string) (qp : query_param)
    (w : world) (res : server_response) :
  (Udemy ∈ sources env ↔ ∃ k, env !! "RAPIDAPI_KEY" = Some k ∧ k ≠ "") ∧
  (has_rapidapi_key env = true ↔ ∃ k, env !! "RAPIDAPI_KEY" = Some k ∧ k ≠ "") ∧
  promises env (read_query qp) w =
    [getCoursera (read_query qp) (fetched w Coursera);
     getClassCentral (fetched w ClassCentral);
     getFreeCodeCamp (read_query qp) (fetched w FreeCodeCamp);
     getGeeksForGeeks (read_query qp) (fetched w GeeksForGeeks)]
    ++ (if has_rapidapi_key env
        then [getUdemy (read_query qp) (fetched w Udemy)] else []) ∧
  (has_rapidapi_key env = false →
   (∀ deduped, aggregate env (read_query qp) w = Normal deduped →
               Forall (λ c, platform c ≠ "Udemy") deduped) ∧
   Forall (λ o, get o "platform" ≠ Normal (JStr "Udemy"))
     (records_of (handler env qp w res))) ∧
  (has_rapidapi_key env = true →
   ∀ lU, getUdemy (read_query qp) (fetched w Udemy) = Normal lU →
     (∀ c, c ∈ lU → c ∈ allCourses env (read_query qp) w) ∧
     ∀ c k out,
       c ∈ lU → field_key c = Some k → (∀ n, random w n ≠ k) →
       (∀ c', c' ∈ allCourses env (read_query qp) w →
              field_key c' = Some k → platform c' = "Udemy") →
       aggregate env (read_query qp) w = Normal out →
       (∃ c', c' ∈ out ∧ platform c' = "Udemy" ∧ field_key c' = Some k) ∧
       ∃ o, o ∈ records_of (handler env qp w res) ∧
            get o "platform" = Normal (JStr "Udemy")).
Proof.
  split; [rewrite sources_Udemy; apply has_rapidapi_key_spec|].
  split; [apply has_rapidapi_key_spec|].
  split; [apply promises_calls|].
  split.
  { intros Hkey. split; [intros deduped; by apply no_key_no_Udemy|].
    rewrite records_of_handler.
    destruct (aggregate env (read_query qp) w) as [deduped|e] eqn:H;
      [|constructor].
    rewrite !Forall_fmap.
    eapply Forall_impl; [exact (no_key_no_Udemy _ _ _ _ Hkey H)|].
    intros c Hc. unfold compose. rewrite stringify_course_platform. congruence. }
  intros Hkey lU HU.
  split; [intros c; by apply getUdemy_in_allCourses|].
  intros c k out Hc Hk Hrnd Honly H.
  assert (∃ c', c' ∈ out ∧ platform c' = "Udemy" ∧ field_key c' = Some k)
    as (c' & Hc' & Hp & Hk').
  { pose proof H as Hd. unfold aggregate in Hd.
    fold (allCourses env (read_query qp) w) in Hd.
    assert (c ∈ allCourses env (read_query qp) w) as Hin
      by (by apply (getUdemy_in_allCourses env _ w lU)).
    destruct (dedupe_key_kept (random w) k _ 0 ∅ out Hd c Hin Hk)
      as [Hseen | (c' & Hc' & [Hf | (_ & n & Hn)])].
    - by apply not_elem_of_empty in Hseen.
    - exists c'. split; [done|]. split; [|done].
      apply Honly; [|done].
      apply dedupe_sublist in Hd. by eapply elem_of_sublist.
    - by apply Hrnd in Hn. }
  split; [by exists c'|].
  exists (stringify (course_obj c')). split.
  - rewrite records_of_handler, H.
    apply list_elem_of_fmap. exists (course_obj c'). split; [done|].
    apply list_elem_of_fmap. by exists c'.
  - by rewrite stringify_course_platform, Hp.
Qed.

Lemma udemy_world_keys c' :
  c' ∈ allCourses udemy_env (read_query QMissing) udemy_world →
  field_key c' = Some "https://www.udemy.com/course/python-bootcamp" →
  platform c' = "Udemy".
Proof.
  intros Hc Hk. vm_compute in Hc.
  repeat (apply elem_of_cons in Hc as [->|Hc]; [vm_compute in Hk; done|]).
  by apply elem_of_nil in Hc.
Qed.

Lemma udemy_iff_rapidapi_key_witness :
  (∃ c', c' ∈ [fcc_catch_entry; udemy_course] ∧ platform c' = "Udemy" ∧
         field_key c' = Some "https://www.udemy.com/course/python-bootcamp") ∧
  ∃ o, o ∈ records_of (handler udemy_env QMissing udemy_world fresh_response) ∧
       get o "platform" = Normal (JStr "Udemy").
Proof.
  pose proof (proj2 (proj2 (proj2 (proj2
    (udemy_iff_rapidapi_key udemy_env QMissing udemy_world fresh_response)))))
    as Hcalled.
  specialize (Hcalled ltac:(vm_compute; reflexivity) [udemy_course]
                ltac:(vm_compute; reflexivity)).
  apply (proj2 Hcalled udemy_course "https://www.udemy.com/course/python-bootcamp").
  - by constructor.
  - reflexivity.
  - intros [|n]; discriminate.
  - exact udemy_world_keys.
  - vm_compute. reflexivity.
Defined.
